(** * WhisperLive stress test: a shallow embedding of [stress-test.ts]

    The development follows the source file top to bottom:

    - [Js]: the fragment of the JavaScript run time the harness relies on
      (thrown values, promise settlement, string search and splitting,
      insertion-ordered [Map], binary64 arithmetic and [toFixed]);
    - the record [StressTestResult] and the class [StressTestRunner] with
      its three methods [runSingleClient], [runStressTest], [printResults];
    - the properties of the harness, one block per method.

    What the event loop decides (which promise settles when, what
    [Date.now()] returns, how the opaque [WhisperLiveClient] behaves) is an
    explicit input of the model.  Progress lines written with [console.log]
    carry no data the report depends on and are left out; the report itself
    is kept as a record of the values that the source interpolates into
    its lines. *)

From stdpp Require Import base option list strings.
From Stdlib Require Import ZArith QArith Lia Ascii DecimalString.
From Stdlib Require Import PrimFloat SpecFloat FloatOps Uint63.

Open Scope Z_scope.

(* ================================================================== *)
(** ** The JavaScript fragment *)
(* ================================================================== *)

Module Js.

(** *** Thrown values *)

(** Anything can be thrown.  The harness only ever inspects a thrown
    value through [error instanceof Error ? error.message : String(error)],
    so a value is an [Error] with its message, or something else
    together with its [String(...)] coercion, or a value for which that
    expression throws in its turn: an object without [toString] such as
    [Object.create(null)], for which [String] throws a [TypeError], an
    object whose [toString] throws, an [Error] whose [message] getter
    throws. *)
Inductive Thrown : Type :=
| ErrorObject (message : string)
| NonError (coerced : string)
| Uncoercible (raised : Thrown).

(** *** Promises *)

(** The state a promise has reached when it is looked at.  [StillPending]
    stands for a promise that has not settled by the time the thing it
    is raced against settles. *)
Inductive Settlement (A : Type) : Type :=
| Fulfilled (value : A)
| Rejected (reason : Thrown)
| StillPending.
Arguments Fulfilled {A} value.
Arguments Rejected {A} reason.
Arguments StillPending {A}.

(** The body of an [async] function: [await] on a rejected promise throws
    out of the body, [await] on a pending one suspends it. *)
#[export] Instance Settlement_ret : MRet Settlement := fun A a => Fulfilled a.
#[export] Instance Settlement_bind : MBind Settlement := fun A B k p =>
  match p with
  | Fulfilled a => k a
  | Rejected e => Rejected e
  | StillPending => StillPending
  end.

(** [error instanceof Error ? error.message : String(error)], evaluated
    inside an [async] body: the text, or what the evaluation throws. *)
Definition describe (error : Thrown) : Settlement string :=
  match error with
  | ErrorObject message => Fulfilled message
  | NonError coerced => Fulfilled coerced
  | Uncoercible raised => Rejected raised
  end.

(** [try { body } catch (error) { handler }] around awaited code. *)
Definition tryCatch {A} (body : Settlement A) (handler : Thrown -> Settlement A)
  : Settlement A :=
  match body with
  | Rejected error => handler error
  | settled => settled
  end.

(** A synchronous call that returns or throws. *)
Inductive Call : Type :=
| Returns
| Throws (error : Thrown).

(** A synchronous call made inside an [async] body. *)
Definition call (c : Call) : Settlement unit :=
  match c with
  | Returns => Fulfilled tt
  | Throws error => Rejected error
  end.

(** [new Promise((_, reject) => setTimeout(() => reject(reason), delay))] *)
Record Timer : Type := { delay : Z; reason : Thrown }.

(** [Promise.race([work, timer])]: [work] wins when it settles before the
    timer fires; a timer always fires, so the race always settles. *)
Definition raceWithTimer {A} (work : Settlement A) (timer : Timer) : Settlement A :=
  match work with
  | StillPending => Rejected (reason timer)
  | settled => settled
  end.

(** *** Strings *)

(** A string is the sequence of its UTF-8 bytes.  The harness searches for
    and splits at ASCII text, for which bytes and UTF-16 code units give
    the same answers; [substring], which counts code units, is modelled on
    characters. *)

(** A string used as a condition: only the empty string is falsy. *)
Definition truthy (s : string) : bool :=
  match s with
  | EmptyString => false
  | String _ _ => true
  end.

(** [s.includes(needle)] *)
Fixpoint includes (s needle : string) : bool :=
  String.prefix needle s ||
  match s with
  | EmptyString => false
  | String _ rest => includes rest needle
  end.

(** [s.split(sep)] for a one-character separator, as the first piece and
    the pieces after it: the array is never empty. *)
Fixpoint split (s : string) (sep : ascii) : string * list string :=
  match s with
  | EmptyString => (EmptyString, [])
  | String c rest =>
      let '(piece, pieces) := split rest sep in
      if Ascii.eqb c sep then (EmptyString, piece :: pieces)
      else (String c piece, pieces)
  end.

(** A string is kept as its UTF-8 bytes, while [substring] counts UTF-16
    code units.  A character is a leading byte with the continuation
    bytes that follow it. *)
Definition isContinuation (b : ascii) : bool :=
  ((128 <=? N_of_ascii b) && (N_of_ascii b <? 192))%N.

Fixpoint characters (s : string) : list string :=
  match s with
  | EmptyString => []
  | String b rest =>
      match characters rest with
      | String b' c :: cs =>
          if isContinuation b' then String b (String b' c) :: cs
          else String b EmptyString :: String b' c :: cs
      | cs => String b EmptyString :: cs
      end
  end.

(** A character outside the basic plane (four bytes) takes two code
    units, a surrogate pair; any other takes one. *)
Definition isAstral (c : string) : bool :=
  match c with
  | String b _ => (240 <=? N_of_ascii b)%N
  | EmptyString => false
  end.

(** The first code unit of a surrogate pair, standing alone, written as
    the three bytes [ED A0..AF 80..BF]. *)
Definition highSurrogate (c : string) : string :=
  let byte k := match String.get k c with Some b => N_of_ascii b | None => 0%N end in
  let codePoint := (byte 0%nat mod 8 * 262144 + byte 1%nat mod 64 * 4096 +
                    byte 2%nat mod 64 * 64 + byte 3%nat mod 64)%N in
  let unit := (55296 + (codePoint - 65536) / 1024)%N in
  String (ascii_of_N 237)
    (String (ascii_of_N (128 + unit / 64 mod 64))
       (String (ascii_of_N (128 + unit mod 64)) EmptyString)).

(** The characters that make up the first [n] code units. *)
Fixpoint takeUnits (n : nat) (cs : list string) : list string :=
  match n, cs with
  | O, _ | _, [] => []
  | S n', c :: rest =>
      if isAstral c then
        match n' with
        | O => [highSurrogate c]
        | S n'' => c :: takeUnits n'' rest
        end
      else c :: takeUnits n' rest
  end.


(** [s.substring(0, n)] *)
Definition substringTo (s : string) (n : nat) : string :=
  String.concat "" (takeUnits n (characters s)).

(** [`${n}`] for an integer. *)
Definition numberToString (n : Z) : string :=
  NilZero.string_of_int (Z.to_int n).

(** *** Map *)

(** [Map<string, number>]: entries in insertion order, one per key. *)
Definition Map : Type := list (string * Z).

Fixpoint Map_get (m : Map) (key : string) : option Z :=
  match m with
  | [] => None
  | (k, v) :: entries => if String.eqb k key then Some v else Map_get entries key
  end.

(** [set] on a key that is present keeps its place. *)
Fixpoint Map_set (m : Map) (key : string) (value : Z) : Map :=
  match m with
  | [] => [(key, value)]
  | (k, v) :: entries =>
      if String.eqb k key then (k, value) :: entries
      else (k, v) :: Map_set entries key value
  end.

(** [x || 0] for [x : number | undefined] *)
Definition orZero (x : option Z) : Z :=
  match x with
  | Some v => if v =? 0 then 0 else v
  | None => 0
  end.

(** *** Numbers *)

(** An integer as a binary64 number (exact below [2^53]). *)
Definition toNumber (n : Z) : float :=
  if n <? 0 then PrimFloat.opp (PrimFloat.of_uint63 (Uint63.of_Z (- n)))
  else PrimFloat.of_uint63 (Uint63.of_Z n).

(** The digits of [n] with a point before the last [fractionDigits] of
    them, padded with zeros on the left (steps 9 to 11 of
    [Number.prototype.toFixed]). *)
Definition pointBeforeLast (n : Z) (fractionDigits : nat) : string :=
  let m := NilZero.string_of_int (Z.to_int n) in
  match fractionDigits with
  | O => m
  | _ =>
      let k := String.length m in
      let m := if (k <=? fractionDigits)%nat
               then String.concat "" (replicate (S fractionDigits - k) "0"%string) +:+ m
               else m in
      let k := String.length m in
      String.substring 0 (k - fractionDigits) m +:+ "." +:+
      String.substring (k - fractionDigits) fractionDigits m
  end.

(** [x.toFixed(fractionDigits)] for [|x| < 1e21]: the integer [n] with
    [n / 10^f] nearest to [|x|] (the larger one on a tie), computed on
    the exact value [mantissa * 2^exponent] of the number. *)
Definition toFixed (x : float) (fractionDigits : nat) : string :=
  match Prim2SF x with
  | S754_nan => "NaN"
  | S754_infinity negative => if negative then "-Infinity" else "Infinity"
  | S754_zero _ => pointBeforeLast 0 fractionDigits
  | S754_finite negative mantissa exponent =>
      let scaled := Z.pos mantissa * 10 ^ Z.of_nat fractionDigits in
      let n := if 0 <=? exponent then scaled * 2 ^ exponent
               else (2 * scaled + 2 ^ (- exponent)) / (2 * 2 ^ (- exponent)) in
      (if negative then "-" else "") +:+ pointBeforeLast n fractionDigits
  end.

End Js.
Export Js.

(* ================================================================== *)
(** ** [interface StressTestResult] *)
(* ================================================================== *)

Record StressTestResult : Type := {
  clientId : Z;
  success : bool;
  startTime : Z;
  endTime : option Z;
  duration : option Z;
  error : option string
}.

(* ================================================================== *)
(** ** What one session meets *)
(* ================================================================== *)

(** The client capability, opaque to the harness: each operation returns,
    throws, or (for the awaited ones) is still running when the
    per-session timer fires. *)
Record WhisperLiveClient : Type := {
  construct : Call;
  connect : Settlement unit;
  processAudioFile : string -> Settlement unit;
  disconnect : Call
}.

(** One session: the client it gets and the two readings of [Date.now()]
    it takes. *)
Record Session : Type := {
  client : WhisperLiveClient;
  clockAtStart : Z;
  clockAtEnd : Z
}.

(* ================================================================== *)
(** ** [class StressTestRunner] *)
(* ================================================================== *)

Record StressTestRunner : Type := {
  numberOfClients : Z;
  audioFile : string;
  results : list StressTestResult
}.

(** [constructor(numberOfClients: number = 10, audioFile: string)] with the
    field initialiser [results = []]. *)
Definition new_StressTestRunner (numberOfClients : option Z) (audioFile : string)
  : StressTestRunner :=
  {| numberOfClients := default 10 numberOfClients;
     audioFile := audioFile;
     results := [] |}.

(** [this.results = rs] *)
Definition set_results (this : StressTestRunner) (rs : list StressTestResult)
  : StressTestRunner :=
  {| numberOfClients := numberOfClients this;
     audioFile := audioFile this;
     results := rs |}.

(** *** [runSingleClient] *)

(** The per-session timer, 3 minutes. *)
Definition timeoutPromise (clientId : Z) : Timer :=
  {| delay := 180000;
     reason := ErrorObject
       ("Client " +:+ numberToString clientId +:+ " timed out after 3 minutes") |}.

(** The [async] arrow function raced against the timer: connect, process
    the audio file, disconnect. *)
Definition work (this : StressTestRunner) (c : WhisperLiveClient) : Settlement unit :=
  connect c ≫= λ _,
  processAudioFile c (audioFile this) ≫= λ _,
  call (disconnect c).

(** [result.endTime = Date.now(); result.duration = result.endTime - result.startTime;
    result.success = true] *)
Definition completed (result : StressTestResult) (now : Z) : StressTestResult :=
  {| clientId := clientId result;
     success := true;
     startTime := startTime result;
     endTime := Some now;
     duration := Some (now - startTime result);
     error := error result |}.

(** [result.endTime = Date.now(); result.duration = result.endTime - result.startTime;
    result.error = message] *)
Definition failedWith (result : StressTestResult) (now : Z) (message : string)
  : StressTestResult :=
  {| clientId := clientId result;
     success := success result;
     startTime := startTime result;
     endTime := Some now;
     duration := Some (now - startTime result);
     error := Some message |}.

(** What a call of [runSingleClient] leaves behind: the promise it
    returns, and the rejections of promises it created that nothing
    handles. *)
Record Invocation : Type := {
  promise : Settlement StressTestResult;
  unhandled : list Thrown
}.

(** The [catch] block evaluates the description of what was thrown with
    nothing around it: when that evaluation throws, the returned promise
    is rejected.  The timer is armed before the [try]; it is handed to
    [Promise.race] only once the client is constructed, so when the
    constructor throws, its rejection three minutes later has no
    handler. *)
Definition runSingleClient (this : StressTestRunner) (s : Session) (clientId : Z)
  : Invocation :=
  let result :=
    {| clientId := clientId;
       success := false;
       startTime := clockAtStart s;
       endTime := None;
       duration := None;
       error := None |} in
  let timer := timeoutPromise clientId in
  {| promise :=
       tryCatch
         (call (construct (client s)) ≫= λ _,
          raceWithTimer (work this (client s)) timer ≫= λ _,
          mret (completed result (clockAtEnd s)))
         (λ thrown,
          describe thrown ≫= λ message,
          mret (failedWith result (clockAtEnd s) message));
     unhandled :=
       match construct (client s) with
       | Throws _ => [reason timer]
       | Returns => []
       end |}.

(** *** [printResults] *)

Inductive Tier : Type :=
| Excellent   (* handled all concurrent requests successfully *)
| Good        (* good performance, but some failures occurred *)
| Moderate    (* moderate performance *)
| Poor.       (* poor performance *)

(** The bucket a failed result is counted in: the body of
    [failed.forEach(result => ...)] up to [errorCounts.set]. *)
Definition errorType (result : StressTestResult) : string :=
  match error result with
  | Some message =>
      if truthy message then
        if includes message "timed out" then "Timeout"
        else if includes message "WebSocket" then "WebSocket Error"
        else if includes message "Server is not available" then "Server Unavailable"
        else (split message ":").1
      else "Unknown"
  | None => "Unknown"
  end.

(** [errorCounts.set(errorType, (errorCounts.get(errorType) || 0) + 1)] *)
Definition countError (errorCounts : Map) (result : StressTestResult) : Map :=
  let bucket := errorType result in
  Map_set errorCounts bucket (orZero (Map_get errorCounts bucket) + 1).

(** [const errorCounts = new Map(); failed.forEach(...)] *)
Definition failureAnalysis (failed : list StressTestResult) : Map :=
  foldl countError [] failed.

(** [r.error?.includes('timed out')] *)
Definition timedOut (r : StressTestResult) : bool :=
  match error r with
  | Some message => includes message "timed out"
  | None => false
  end.

(** [((successful / numberOfClients) * 100).toFixed(1)], in binary64. *)
Definition successRate (successful : nat) (numberOfClients : Z) : float :=
  PrimFloat.mul
    (PrimFloat.div (toNumber (Z.of_nat successful)) (toNumber numberOfClients))
    (toNumber 100).

(** The chain of [if]s under RECOMMENDATIONS.  Both sides of each
    comparison are taken as exact rationals; [thresholds_in_binary64] below
    checks the comparisons against the binary64 ones. *)
Definition recommend (successful : nat) (numberOfClients : Z) : Tier :=
  if Z.of_nat successful =? numberOfClients then Excellent
  else if Qle_bool (inject_Z numberOfClients * 0.8) (inject_Z (Z.of_nat successful))
  then Good
  else if Qle_bool (inject_Z numberOfClients * 0.5) (inject_Z (Z.of_nat successful))
  then Moderate
  else Poor.

(** The same chain with the products and comparisons in binary64, as the
    engine evaluates them. *)
Definition recommend_binary64 (successful : nat) (numberOfClients : Z) : Tier :=
  let s := toNumber (Z.of_nat successful) in
  let n := toNumber numberOfClients in
  if PrimFloat.eqb s n then Excellent
  else if PrimFloat.leb (PrimFloat.mul n 0x1.999999999999ap-1) s then Good
  else if PrimFloat.leb (PrimFloat.mul n 0.5) s then Moderate
  else Poor.

(** What one call of [printResults] writes: the values interpolated into
    its lines.  The timing block and the per-client table only format
    fields of the results and are not kept. *)
Record Report : Type := {
  totalTime : Z;
  successfulCount : nat;                  (* successful.length *)
  failedCount : nat;                      (* failed.length *)
  outOf : Z;                              (* this.numberOfClients *)
  successRateShown : string;              (* ...toFixed(1), before the % sign *)
  errorCounts : option Map;               (* FAILURE ANALYSIS, when failed.length > 0 *)
  recommendation : Tier;
  timeoutFailures : nat
}.

Definition printResults (this : StressTestRunner) (totalTime : Z) : Report :=
  let successful := filter (λ r, success r = true) (results this) in
  let failed := filter (λ r, success r = false) (results this) in
  {| totalTime := totalTime;
     successfulCount := length successful;
     failedCount := length failed;
     outOf := numberOfClients this;
     successRateShown :=
       toFixed (successRate (length successful) (numberOfClients this)) 1;
     errorCounts :=
       if (0 <? length failed)%nat then Some (failureAnalysis failed) else None;
     recommendation := recommend (length successful) (numberOfClients this);
     timeoutFailures := length (filter (λ r, timedOut r = true) failed) |}.

(** *** [runStressTest] *)

(** The global timer, 3.5 minutes. *)
Definition globalTimeoutPromise : Timer :=
  {| delay := 210000;
     reason := ErrorObject "Entire stress test timed out after 3.5 minutes" |}.

(** What the event loop delivers while the batch is awaited, in order. *)
Inductive Event : Type :=
| PromiseSettles (index : nat)   (* clientPromises[index] settles *)
| GlobalTimerFires.

(** What a run meets: the session each client id gets, the order in which
    the event loop delivers settlements and the global timer as far as
    the timers leave it open (see [inTimerOrder]), and the two readings of
    [Date.now()] taken by [runStressTest]. *)
Record Environment : Type := {
  session : Z -> Session;
  schedule : list Event;
  clockAtLaunch : Z;
  clockAtFinish : Z
}.

(** [for (let i = 1; i <= numberOfClients; i++) clientPromises.push(this.runSingleClient(i))]:
    each promise is kept as the settlement it will reach. *)
Definition clientPromises (this : StressTestRunner) (env : Environment)
  : list (Settlement StressTestResult) :=
  (λ i, promise (runSingleClient this (session env i) i)) <$>
    seqZ 1 (numberOfClients this).

(** The event loop runs timers in the order in which they are due, and a
    session has settled once its own timer has fired.  The timer of
    session [i] is armed at its reading of the clock and due 180 000 ms
    later; the global timer is armed at the reading of [runStressTest] and
    due 210 000 ms later.  [dueFirst] are the indices of the client
    promises whose timer is due before the global one. *)
Definition dueFirst (this : StressTestRunner) (env : Environment) : list nat :=
  filter
    (λ k, clockAtStart (session env (1 + Z.of_nat k)) +
            delay (timeoutPromise (1 + Z.of_nat k)) <
          clockAtLaunch env + delay globalTimeoutPromise)
    (seq 0 (Z.to_nat (numberOfClients this))).

(** The events in an order the timers allow: by the time the global timer
    fires, the settlements of [settledByThen] have been delivered, and
    nothing after it matters to the race. *)
Fixpoint inTimerOrder (settledByThen : list nat) (events : list Event) : list Event :=
  match events with
  | [] => []
  | GlobalTimerFires :: _ => (PromiseSettles <$> settledByThen) ++ [GlobalTimerFires]
  | event :: later => event :: inTimerOrder settledByThen later
  end.

(** [await Promise.race([Promise.all(clientPromises), globalTimeoutPromise])].
    [values] is the array [Promise.all] fills by index; the race is
    fulfilled once every slot is filled, rejected by the first rejected
    client promise or by the global timer, and otherwise waits for the
    next event. *)
Fixpoint raceAllWithTimer (promises : list (Settlement StressTestResult))
    (values : list (option StressTestResult)) (timer : Timer) (events : list Event)
  : Settlement (list StressTestResult) :=
  match mapM id values with
  | Some rs => Fulfilled rs
  | None =>
      match events with
      | [] => StillPending
      | GlobalTimerFires :: _ => Rejected (reason timer)
      | PromiseSettles index :: later =>
          match promises !! index with
          | Some (Fulfilled r) =>
              raceAllWithTimer promises (<[index := Some r]> values) timer later
          | Some (Rejected thrown) => Rejected thrown
          | Some StillPending | None =>
              raceAllWithTimer promises values timer later
          end
      end
  end.

(** The race awaited by [runStressTest], on the events in timer order. *)
Definition batchRace (this : StressTestRunner) (env : Environment)
  : Settlement (list StressTestResult) :=
  let promises := clientPromises this env in
  raceAllWithTimer promises (replicate (length promises) None)
    globalTimeoutPromise (inTimerOrder (dueFirst this env) (schedule env)).

(** What [runStressTest] writes besides progress lines. *)
Inductive Output : Type :=
| Interrupted (totalTime : Z) (message : string)   (* STRESS TEST INTERRUPTED, Error: ... *)
| InterruptedOnly (totalTime : Z)                  (* the same, cut before the Error line *)
| Results (report : Report).                       (* a call of printResults *)

(** The runner after the call, what was written, and how the returned
    promise settled.  In the [catch] block the line with the description
    of the error is written after the notice and the total time; when
    the description cannot be evaluated, the block ends there, and the
    promise is rejected with what that evaluation threw. *)
Definition runStressTest (this : StressTestRunner) (env : Environment)
  : StressTestRunner * list Output * Settlement unit :=
  let startTime := clockAtLaunch env in
  let totalTime := clockAtFinish env - startTime in
  match batchRace this env with
  | Fulfilled rs =>
      let this := set_results this rs in
      (this, [Results (printResults this totalTime)], Fulfilled tt)
  | Rejected thrown =>
      match describe thrown with
      | Fulfilled message =>
          (this,
           Interrupted totalTime message ::
             (if (0 <? length (results this))%nat
              then [Results (printResults this totalTime)] else []),
           Rejected thrown)
      | Rejected raised => (this, [InterruptedOnly totalTime], Rejected raised)
      | StillPending => (this, [InterruptedOnly totalTime], StillPending)
      end
  | StillPending => (this, [], StillPending)
  end.

(** *** [printResults]: the timing block and the table *)

(** The value of [Math.min(...)] or [Math.max(...)]. *)
Inductive Extremum : Type :=
| NotANumber               (* some argument is not a number *)
| Unbounded                (* no argument: Infinity, -Infinity *)
| Value (z : Z).

(** [Math.min(...args)]; an absent duration is [undefined], which counts
    as [NaN]. *)
Fixpoint Math_min (args : list (option Z)) : Extremum :=
  match args with
  | [] => Unbounded
  | arg :: rest =>
      match arg, Math_min rest with
      | None, _ | _, NotANumber => NotANumber
      | Some x, Unbounded => Value x
      | Some x, Value y => Value (Z.min x y)
      end
  end.

(** [Math.max(...args)] *)
Fixpoint Math_max (args : list (option Z)) : Extremum :=
  match args with
  | [] => Unbounded
  | arg :: rest =>
      match arg, Math_max rest with
      | None, _ | _, NotANumber => NotANumber
      | Some x, Unbounded => Value x
      | Some x, Value y => Value (Z.max x y)
      end
  end.

(** [a + b] where either side may be [NaN] ([None]). *)
Definition plus (a b : option Z) : option Z :=
  match a, b with
  | Some x, Some y => Some (x + y)
  | _, _ => None
  end.

(** [durations.reduce((a, b) => a + b, 0)], exact while it stays below
    [2^53]. *)
Definition sumOf (durations : list (option Z)) : option Z :=
  foldl plus (Some 0) durations.

(** [successful.map(r => r.duration!)] *)
Definition durationsOf (successful : list StressTestResult) : list (option Z) :=
  duration <$> successful.

(** [avgDuration.toFixed(0)] for [avgDuration = sum / durations.length] *)
Definition averageShown (durations : list (option Z)) : string :=
  toFixed
    (match sumOf durations with
     | Some total =>
         PrimFloat.div (toNumber total) (toNumber (Z.of_nat (length durations)))
     | None => PrimFloat.nan
     end) 0.

(** TIMING STATISTICS (successful clients only) *)
Record TimingStatistics : Type := {
  average : string;            (* Average duration: ...ms *)
  fastest : Extremum;          (* Fastest client: ...ms *)
  slowest : Extremum           (* Slowest client: ...ms *)
}.

(** The block under [if (successful.length > 0)]. *)
Definition timingStatistics (this : StressTestRunner) : option TimingStatistics :=
  let successful := filter (λ r, success r = true) (results this) in
  if (0 <? length successful)%nat then
    let durations := durationsOf successful in
    Some {| average := averageShown durations;
            fastest := Math_min durations;
            slowest := Math_max durations |}
  else None.

(** [s.padStart(targetLength)] *)
Definition padStart (s : string) (targetLength : nat) : string :=
  String.concat "" (replicate (targetLength - String.length s) " "%string) +:+ s.

(** [result.duration ? `${result.duration}ms` : 'N/A'] *)
Definition durationText (result : StressTestResult) : string :=
  match duration result with
  | Some d => if d =? 0 then "N/A" else numberToString d +:+ "ms"
  | None => "N/A"
  end.

(** [result.error ? result.error.substring(0, 30) + '...' : ''] *)
Definition errorText (result : StressTestResult) : string :=
  match error result with
  | Some message =>
      if truthy message then substringTo message 30 +:+ "..." else ""
  | None => ""
  end.

(** One line of DETAILED RESULTS: its four columns. *)
Record DetailRow : Type := {
  clientColumn : string;       (* result.clientId.toString().padStart(6) *)
  statusColumn : bool;         (* Success or Failed *)
  durationColumn : string;     (* duration.padStart(8) *)
  errorColumn : string
}.

(** [this.results.forEach(result => ...)] *)
Definition detailedResults (this : StressTestRunner) : list DetailRow :=
  (λ result,
     {| clientColumn := padStart (numberToString (clientId result)) 6;
        statusColumn := success result;
        durationColumn := padStart (durationText result) 8;
        errorColumn := errorText result |}) <$> results this.

(* ================================================================== *)
(** ** [async function runStressTest()], the entry point *)
(* ================================================================== *)

Module EntryPoint.

(** What the process finds: the path [path.join(__dirname,
    'german_sample_16k.wav')], whether [fs.existsSync] finds a file there,
    and what the batch meets. *)
Record Host : Type := {
  audioFile : string;
  existsSync : bool;
  environment : Environment
}.

(** What the entry point writes, the runner's output included. *)
Inductive Notice : Type :=
| AudioFileNotFound (audioFile : string)
| FromRunner (output : Output)
| StressTestCompleted
| StressTestFailed (thrown : Thrown).

(** How the call ends: [process.exit(code)], a normal return, or still
    waiting for the batch. *)
Inductive Ending : Type :=
| ProcessExit (code : Z)
| Returned
| Waiting.

Definition runStressTest (host : Host) : list Notice * Ending :=
  if negb (existsSync host) then
    ([AudioFileNotFound (audioFile host)], ProcessExit 1)
  else
    let stressTest := new_StressTestRunner (Some 10) (audioFile host) in
    match runStressTest stressTest (environment host) with
    | (_, written, Fulfilled _) =>
        ((FromRunner <$> written) ++ [StressTestCompleted], Returned)
    | (_, written, Rejected thrown) =>
        ((FromRunner <$> written) ++ [StressTestFailed thrown], ProcessExit 1)
    | (_, written, StillPending) => (FromRunner <$> written, Waiting)
    end.

End EntryPoint.

(* ================================================================== *)
(** ** Vocabulary of the properties *)
(* ================================================================== *)

(** [needle] occurs in [s] as a contiguous run of characters. *)
Definition occursIn (needle s : string) : Prop :=
  ∃ before after, s = before +:+ needle +:+ after.


(** [piece] is what precedes the first [sep] in [s]: it holds no [sep] and
    [s] is [piece] alone or [piece], then [sep], then anything. *)
Definition precedesFirst (sep : ascii) (s piece : string) : Prop :=
  (sep ∉ String.list_ascii_of_string piece) ∧
  (s = piece ∨ ∃ rest, s = piece +:+ String sep rest).

(** The first thing that goes wrong in a session, if anything does: the
    failure paths of [runSingleClient] in the order the code meets them.
    An awaited step that is still pending loses the race to the timer. *)
Definition firstFailure (this : StressTestRunner) (s : Session) (clientId : Z)
  : option Thrown :=
  let timedOut := reason (timeoutPromise clientId) in
  match construct (client s) with
  | Throws thrown => Some thrown
  | Returns =>
      match connect (client s) with
      | Rejected thrown => Some thrown
      | StillPending => Some timedOut
      | Fulfilled _ =>
          match processAudioFile (client s) (audioFile this) with
          | Rejected thrown => Some thrown
          | StillPending => Some timedOut
          | Fulfilled _ =>
              match disconnect (client s) with
              | Throws thrown => Some thrown
              | Returns => None
              end
          end
      end
  end.

(** The bucket of a result that failed with [message]. *)
Definition errorType_of_message (message : string) : string :=
  errorType {| clientId := 1; success := false; startTime := 0;
               endTime := Some 0; duration := Some 0; error := Some message |}.

(** What every result of session [s] for client [id] carries, whatever
    happened. *)
Definition recorded (s : Session) (id : Z) (r : StressTestResult) : Prop :=
  clientId r = id ∧
  startTime r = clockAtStart s ∧
  endTime r = Some (clockAtEnd s) ∧
  duration r = Some (clockAtEnd s - clockAtStart s).

(** Number of results of [l] counted in [bucket]. *)
Definition countOf (bucket : string) (l : list StressTestResult) : Z :=
  Z.of_nat (length (filter (λ r, errorType r = bucket) l)).

(** Sum of the counts of a [Map]. *)
Definition totalCount (m : Map) : Z := foldr (λ entry acc, entry.2 + acc) 0 m.

(** The count [errorCounts.get(bucket) || 0]. *)
Definition countIn (m : Map) (bucket : string) : Z := orZero (Map_get m bucket).

(** The indices whose settlement the event loop delivers before the global
    timer fires. *)
Fixpoint settledBeforeDeadline (events : list Event) : list nat :=
  match events with
  | [] => []
  | GlobalTimerFires :: _ => []
  | PromiseSettles index :: later => index :: settledBeforeDeadline later
  end.

(** Every client promise is delivered before the global timer takes
    effect, the events taken in timer order. *)
Definition delivered (this : StressTestRunner) (env : Environment) : Prop :=
  ∀ k, (k < Z.to_nat (numberOfClients this))%nat →
       k ∈ settledBeforeDeadline (inTimerOrder (dueFirst this env) (schedule env)).

(** Every session returns an outcome: none has its [catch] block throw. *)
Definition allReturn (this : StressTestRunner) (env : Environment) : Prop :=
  ∀ i, 1 ≤ i ≤ numberOfClients this →
       ∃ r, promise (runSingleClient this (session env i) i) = Fulfilled r.

(** Every filled slot of [Promise.all] holds the value of its promise. *)
Definition filledFrom (promises : list (Settlement StressTestResult))
    (values : list (option StressTestResult)) : Prop :=
  length values = length promises ∧
  ∀ k r, values !! k = Some (Some r) → promises !! k = Some (Fulfilled r).

Definition Tier_eqb (a b : Tier) : bool :=
  match a, b with
  | Excellent, Excellent | Good, Good | Moderate, Moderate | Poor, Poor => true
  | _, _ => false
  end.

(** The elements of [l] without repetition, each at the place where it
    occurs first. *)
Fixpoint firstOccurrences (l : list string) : list string :=
  match l with
  | [] => []
  | x :: rest => x :: filter (λ y, y ≠ x) (firstOccurrences rest)
  end.

(* ================================================================== *)
(** ** Scenarios *)
(* ================================================================== *)

Module Scenario.

(** A client for which every step works. *)
Definition healthy : WhisperLiveClient :=
  {| construct := Returns;
     connect := Fulfilled tt;
     processAudioFile := λ _, Fulfilled tt;
     disconnect := Returns |}.

(** A client whose [connect] rejects. *)
Definition refused : WhisperLiveClient :=
  {| construct := Returns;
     connect := Rejected (ErrorObject "Connection refused");
     processAudioFile := λ _, Fulfilled tt;
     disconnect := Returns |}.

(** A client whose [processAudioFile] never comes back. *)
Definition hanging : WhisperLiveClient :=
  {| construct := Returns;
     connect := Fulfilled tt;
     processAudioFile := λ _, StillPending;
     disconnect := Returns |}.

Definition runner (n : Z) : StressTestRunner :=
  new_StressTestRunner (Some n) "german_sample_16k.wav".

(** Session 2 is refused at once; the others take one second. *)
Definition secondRefused (i : Z) : Session :=
  if i =? 2
  then {| client := refused; clockAtStart := 5; clockAtEnd := 45 |}
  else {| client := healthy; clockAtStart := 5; clockAtEnd := 1005 |}.

(** Three sessions, all settling, the second one failing. *)
Definition twoOfThree : Environment :=
  {| session := secondRefused;
     schedule := [PromiseSettles 1; PromiseSettles 0; PromiseSettles 2];
     clockAtLaunch := 0;
     clockAtFinish := 1010 |}.

(** Ten sessions launched together: sessions 1 to 7 take one second,
    sessions 8 to 10 hang until their timers fire. *)
Definition lastThreeHang (i : Z) : Session :=
  if i <=? 7
  then {| client := healthy; clockAtStart := 5; clockAtEnd := 1005 |}
  else {| client := hanging; clockAtStart := 5; clockAtEnd := 180005 |}.


(** No event at all. *)
Definition idle : Environment :=
  {| session := lastThreeHang;
     schedule := [];
     clockAtLaunch := 0;
     clockAtFinish := 1 |}.

End Scenario.

Module Situation.

(** The three sessions of [Scenario.twoOfThree], settling in launch order. *)
Definition inLaunchOrder : Environment :=
  {| session := Scenario.secondRefused;
     schedule := [PromiseSettles 0; PromiseSettles 1; PromiseSettles 2];
     clockAtLaunch := 0;
     clockAtFinish := 1010 |}.

(** A client whose [connect] rejects with [Object.create(null)], for
    which [String] throws a [TypeError]. *)
Definition unprintable : WhisperLiveClient :=
  {| construct := Returns;
     connect := Rejected
       (Uncoercible (ErrorObject "Cannot convert object to primitive value"));
     processAudioFile := λ _, Fulfilled tt;
     disconnect := Returns |}.

(** A client whose constructor throws. *)
Definition unbuildable : WhisperLiveClient :=
  {| construct := Throws (ErrorObject "Invalid configuration");
     connect := Fulfilled tt;
     processAudioFile := λ _, Fulfilled tt;
     disconnect := Returns |}.

(** Three sessions on a later call; the second one rejects at once with a
    value that cannot be described. *)
Definition secondUnprintable (i : Z) : Session :=
  if i =? 2
  then {| client := unprintable; clockAtStart := 500005; clockAtEnd := 500045 |}
  else {| client := Scenario.healthy; clockAtStart := 500005; clockAtEnd := 501005 |}.

(** The later call, cut short by the rejection of its second session. *)
Definition cutShort : Environment :=
  {| session := secondUnprintable;
     schedule := [PromiseSettles 1; PromiseSettles 0; PromiseSettles 2];
     clockAtLaunch := 500000;
     clockAtFinish := 500050 |}.

(** A session that starts and ends within the same millisecond. *)
Definition instant : Session :=
  {| client := Scenario.healthy; clockAtStart := 77; clockAtEnd := 77 |}.

(** A session that loses the race to its timer. *)
Definition stuck : Session :=
  {| client := Scenario.hanging; clockAtStart := 5; clockAtEnd := 180006 |}.

(** Ten sessions; the second and the fifth are refused. *)
Definition tenSessions (i : Z) : Session :=
  if (i =? 2) || (i =? 5)
  then {| client := Scenario.refused; clockAtStart := 3; clockAtEnd := 40 |}
  else {| client := Scenario.healthy; clockAtStart := 3; clockAtEnd := 900 + i |}.

Definition host (found : bool) (events : list Event) : EntryPoint.Host :=
  {| EntryPoint.audioFile := "/srv/whisper/german_sample_16k.wav";
     EntryPoint.existsSync := found;
     EntryPoint.environment :=
       {| session := tenSessions;
          schedule := events;
          clockAtLaunch := 0;
          clockAtFinish := 1000 |} |}.

End Situation.

(* ================================================================== *)
(** ** Facts about the JavaScript fragment *)
(* ================================================================== *)

Section Strings.

#[local] Arguments String.append _ _ : simpl nomatch.

Lemma append_assoc (a b c : string) : (a +:+ b) +:+ c = a +:+ b +:+ c.
Proof. induction a as [|x a IH]; simpl; [done | by rewrite IH]. Qed.

Lemma prefix_spec (p s : string) :
  String.prefix p s = true ↔ ∃ after, s = p +:+ after.
Proof.
  revert s. induction p as [|a p IH]; intros s.
  - split; [intros _; by exists s | intros _; by destruct s].
  - destruct s as [|b s]; simpl.
    + split; [done | intros [after H]; discriminate H].
    + destruct (ascii_dec a b) as [->|Hne].
      * rewrite IH. split; intros [after H]; exists after.
        -- by rewrite H.
        -- by inversion H.
      * split; [done | intros [after H]; simpl in H; congruence].
Qed.

Lemma includes_spec (s needle : string) :
  includes s needle = true ↔ occursIn needle s.
Proof.
  unfold occursIn. induction s as [|c s IH].
  - cbn [includes]. rewrite orb_false_r, prefix_spec. split.
    + intros [after H]. by exists ""%string, after.
    + intros [[|x before] [after H]]; [by exists after | discriminate H].
  - cbn [includes]. rewrite orb_true_iff, prefix_spec, IH. split.
    + intros [[after H] | (before & after & H)].
      * by exists ""%string, after.
      * exists (String c before), after. simpl. by rewrite H.
    + intros [[|x before] [after H]].
      * left. by exists after.
      * right. simpl in H. inversion H; subst. by exists before, after.
Qed.

Lemma occursIn_nonempty (needle s : string) :
  needle ≠ ""%string → occursIn needle s → truthy s = true.
Proof.
  intros Hne (before & after & ->).
  destruct before; simpl; [| done]. by destruct needle.
Qed.

Lemma split_first_spec (s : string) (sep : ascii) :
  precedesFirst sep s (split s sep).1.
Proof.
  unfold precedesFirst. induction s as [|c s [Hnot Hs]]; simpl.
  - split; [apply not_elem_of_nil | by left].
  - destruct (split s sep) as [piece pieces] eqn:E. simpl in *.
    destruct (Ascii.eqb_spec c sep) as [->|Hne]; simpl.
    + split; [apply not_elem_of_nil | right; by exists s].
    + split.
      * rewrite not_elem_of_cons. split; [congruence | done].
      * destruct Hs as [->|[rest ->]]; [by left | right; by exists rest].
Qed.

(** The piece before the first separator is determined by the string. *)
Lemma precedesFirst_unique (sep : ascii) (s p q : string) :
  precedesFirst sep s p → precedesFirst sep s q → p = q.
Proof.
  revert s q. induction p as [|a p IH]; intros s q [Hp Hsp] [Hq Hsq].
  - destruct q as [|b q]; [done | exfalso].
    simpl in Hq. apply not_elem_of_cons in Hq as [Hb Hq].
    destruct Hsp as [->|[rest ->]]; destruct Hsq as [H|[rest' H]];
      simpl in H; try discriminate H; inversion H; congruence.
  - simpl in Hp. apply not_elem_of_cons in Hp as [Ha Hp].
    destruct q as [|b q].
    + exfalso. destruct Hsp as [->|[rest ->]]; destruct Hsq as [H|[rest' H]];
        simpl in H; try discriminate H; inversion H; congruence.
    + simpl in Hq. apply not_elem_of_cons in Hq as [Hb Hq].
      assert (a = b ∧ ∃ s', precedesFirst sep s' p ∧ precedesFirst sep s' q)
        as [-> (s' & H1 & H2)].
      { destruct Hsp as [->|[rest ->]]; destruct Hsq as [H|[rest' H]];
          simpl in H; inversion H; subst; (split; [done |]).
        - exists q. split; (split; [done | by left]).
        - exists (q +:+ String sep rest'). split; (split; [done |]).
          + by left.
          + right. by exists rest'.
        - exists (p +:+ String sep rest). split; (split; [done |]).
          + right. by exists rest.
          + by left.
        - exists (p +:+ String sep rest). split; (split; [done |]).
          + right. by exists rest.
          + right. exists rest'. done. }
      f_equal. by apply (IH s').
Qed.

End Strings.

Section Maps.

Implicit Types (m : Map) (key : string) (value : Z).

Lemma orZero_Some value : orZero (Some value) = value.
Proof. unfold orZero. destruct (Z.eqb_spec value 0); congruence. Qed.

Lemma Map_get_set_eq m key value : Map_get (Map_set m key value) key = Some value.
Proof.
  induction m as [|[k v] m IH]; simpl.
  - by rewrite String.eqb_refl.
  - destruct (String.eqb_spec k key) as [->|Hne]; simpl.
    + by rewrite String.eqb_refl.
    + by destruct (String.eqb_spec k key).
Qed.

Lemma Map_get_set_ne m key key' value :
  key ≠ key' → Map_get (Map_set m key value) key' = Map_get m key'.
Proof.
  intros Hne. induction m as [|[k v] m IH]; simpl.
  - by destruct (String.eqb_spec key key').
  - destruct (String.eqb_spec k key) as [->|Hk]; simpl.
    + by destruct (String.eqb_spec key key').
    + by rewrite IH.
Qed.

Lemma Map_set_keys_present m key value :
  key ∈ m.*1 → (Map_set m key value).*1 = m.*1.
Proof.
  induction m as [|[k v] m IH]; simpl; intros Hin.
  - by apply elem_of_nil in Hin.
  - destruct (String.eqb_spec k key) as [->|Hk]; simpl; [done |].
    apply elem_of_cons in Hin as [->|Hin]; [done |]. f_equal. by apply IH.
Qed.

Lemma Map_set_keys_absent m key value :
  key ∉ m.*1 → (Map_set m key value).*1 = m.*1 ++ [key].
Proof.
  induction m as [|[k v] m IH]; simpl; intros Hnot; [done |].
  apply not_elem_of_cons in Hnot as [Hne Hnot].
  destruct (String.eqb_spec k key) as [->|Hk]; simpl; [done |].
  f_equal. by apply IH.
Qed.

Lemma Map_set_NoDup m key value : NoDup m.*1 → NoDup (Map_set m key value).*1.
Proof.
  intros Hm. destruct (decide (key ∈ m.*1)) as [Hin|Hnot].
  - by rewrite Map_set_keys_present.
  - rewrite Map_set_keys_absent by done.
    apply NoDup_app. split_and!; [done | | apply NoDup_singleton].
    intros k Hk ->%list_elem_of_singleton. done.
Qed.

(** Replacing the count of a key changes the total by the difference. *)
Lemma totalCount_set m key value :
  totalCount (Map_set m key value) = totalCount m - countIn m key + value.
Proof.
  unfold countIn. induction m as [|[k v] m IH]; simpl.
  - lia.
  - destruct (String.eqb_spec k key) as [->|Hk]; simpl.
    + destruct (Z.eqb_spec v 0); lia.
    + rewrite IH. lia.
Qed.

End Maps.

Section FailureAnalysis.

Implicit Types (r : StressTestResult) (l : list StressTestResult) (m : Map).

Lemma countOf_snoc bucket l r :
  countOf bucket (l ++ [r]) =
  countOf bucket l + (if decide (errorType r = bucket) then 1 else 0).
Proof.
  unfold countOf. rewrite filter_app, length_app.
  rewrite filter_cons, filter_nil. case_decide; simpl; lia.
Qed.

Lemma countOf_nonneg bucket l : 0 ≤ countOf bucket l.
Proof. unfold countOf. lia. Qed.

Lemma failureAnalysis_snoc l r :
  failureAnalysis (l ++ [r]) = countError (failureAnalysis l) r.
Proof. unfold failureAnalysis. by rewrite foldl_app. Qed.

(** A bucket is in the map exactly when a result was counted in it, and
    then with the number of results counted in it. *)
Lemma failureAnalysis_get l bucket :
  Map_get (failureAnalysis l) bucket =
  if countOf bucket l =? 0 then None else Some (countOf bucket l).
Proof.
  induction l as [|r l IH] using rev_ind; [done |].
  rewrite failureAnalysis_snoc, countOf_snoc. unfold countError.
  pose proof (countOf_nonneg bucket l) as Hge.
  case_decide as Hb.
  - subst bucket. rewrite Map_get_set_eq, IH.
    destruct (Z.eqb_spec (countOf (errorType r) l) 0) as [H0|H0].
    + rewrite H0. done.
    + rewrite orZero_Some.
      destruct (Z.eqb_spec (countOf (errorType r) l + 1) 0); [lia | done].
  - rewrite Map_get_set_ne by done. by rewrite IH, Z.add_0_r.
Qed.

Lemma failureAnalysis_countIn l bucket :
  countIn (failureAnalysis l) bucket = countOf bucket l.
Proof.
  unfold countIn. rewrite failureAnalysis_get.
  destruct (Z.eqb_spec (countOf bucket l) 0) as [->|?]; [done |].
  apply orZero_Some.
Qed.

Lemma failureAnalysis_total l :
  totalCount (failureAnalysis l) = Z.of_nat (length l).
Proof.
  induction l as [|r l IH] using rev_ind; [done |].
  rewrite failureAnalysis_snoc. unfold countError.
  rewrite totalCount_set. fold (countIn (failureAnalysis l) (errorType r)).
  rewrite IH, length_app. simpl. lia.
Qed.

Lemma failureAnalysis_NoDup l : NoDup (failureAnalysis l).*1.
Proof.
  induction l as [|r l IH] using rev_ind; [apply NoDup_nil_2 |].
  rewrite failureAnalysis_snoc. by apply Map_set_NoDup.
Qed.

Lemma countOf_Permutation bucket l l' : l ≡ₚ l' → countOf bucket l = countOf bucket l'.
Proof. intros H. unfold countOf. by rewrite H. Qed.

Lemma errorType_error r r' : error r = error r' → errorType r = errorType r'.
Proof. unfold errorType. by intros ->. Qed.

Lemma failureAnalysis_error l l' :
  error <$> l = error <$> l' → failureAnalysis l = failureAnalysis l'.
Proof.
  revert l'. induction l as [|r l IH] using rev_ind; intros l' H.
  - symmetry in H. apply fmap_nil_inv in H. by subst.
  - destruct l' as [|r' l' _] using rev_ind.
    + rewrite fmap_app in H. by destruct (error <$> l).
    + rewrite !fmap_app in H. simpl in H.
      apply app_inj_tail in H as [Hl Hr].
      rewrite !failureAnalysis_snoc. unfold countError.
      by rewrite (IH l' Hl), (errorType_error r r' Hr).
Qed.

End FailureAnalysis.

Section Classification.

Variable r : StressTestResult.

Lemma includes_false (s needle : string) :
  ¬ occursIn needle s → includes s needle = false.
Proof.
  intros H. destruct (includes s needle) eqn:E; [| done].
  by apply includes_spec in E.
Qed.

Lemma errorType_absent : error r = None → errorType r = "Unknown".
Proof. unfold errorType. by intros ->. Qed.

Lemma errorType_empty : error r = Some ""%string → errorType r = "Unknown".
Proof. unfold errorType. by intros ->. Qed.

Lemma errorType_timeout message :
  error r = Some message → occursIn "timed out" message → errorType r = "Timeout".
Proof.
  unfold errorType. intros -> H.
  rewrite (occursIn_nonempty "timed out" message) by done.
  apply includes_spec in H. by rewrite H.
Qed.

Lemma errorType_transport message :
  error r = Some message → ¬ occursIn "timed out" message →
  occursIn "WebSocket" message → errorType r = "WebSocket Error".
Proof.
  unfold errorType. intros -> Hno H.
  rewrite (occursIn_nonempty "WebSocket" message) by done.
  rewrite (includes_false _ _ Hno).
  apply includes_spec in H. by rewrite H.
Qed.

Lemma errorType_unavailable message :
  error r = Some message → ¬ occursIn "timed out" message →
  ¬ occursIn "WebSocket" message →
  occursIn "Server is not available" message → errorType r = "Server Unavailable".
Proof.
  unfold errorType. intros -> Hno1 Hno2 H.
  rewrite (occursIn_nonempty "Server is not available" message) by done.
  rewrite (includes_false _ _ Hno1), (includes_false _ _ Hno2).
  apply includes_spec in H. by rewrite H.
Qed.

Lemma errorType_other message :
  error r = Some message → message ≠ ""%string →
  ¬ occursIn "timed out" message → ¬ occursIn "WebSocket" message →
  ¬ occursIn "Server is not available" message →
  precedesFirst ":" message (errorType r).
Proof.
  unfold errorType. intros -> Hne Hno1 Hno2 Hno3.
  destruct message as [|c message]; [done |]. cbn [truthy].
  rewrite (includes_false _ _ Hno1), (includes_false _ _ Hno2),
    (includes_false _ _ Hno3).
  apply split_first_spec.
Qed.

End Classification.

(* ================================================================== *)
(** ** Facts about [runSingleClient] *)
(* ================================================================== *)

Section SessionRunner.

Variables (this : StressTestRunner) (s : Session) (id : Z).

(** The promise returned by [runSingleClient], by what went wrong first
    and by whether it can be described. *)
Lemma runSingleClient_cases :
  match firstFailure this s id with
  | None =>
      ∃ r, promise (runSingleClient this s id) = Fulfilled r ∧ recorded s id r ∧
           success r = true ∧ error r = None
  | Some thrown =>
      match describe thrown with
      | Fulfilled message =>
          ∃ r, promise (runSingleClient this s id) = Fulfilled r ∧ recorded s id r ∧
               success r = false ∧ error r = Some message
      | Rejected raised => promise (runSingleClient this s id) = Rejected raised
      | StillPending => False
      end
  end.
Proof.
  assert (∀ thrown, describe thrown ≠ StillPending) as Hdescribe
    by by intros [].
  unfold runSingleClient, firstFailure, work, recorded. cbn [promise].
  destruct (construct (client s)) as [|thrown]; simpl.
  2: { destruct (describe thrown) eqn:E; simpl; [by eexists | done |].
       by apply Hdescribe in E. }
  destruct (connect (client s)) as [[]|thrown|]; simpl.
  2: { destruct (describe thrown) eqn:E; simpl; [by eexists | done |].
       by apply Hdescribe in E. }
  2: by eexists.
  destruct (processAudioFile (client s) (audioFile this)) as [[]|thrown|]; simpl.
  2: { destruct (describe thrown) eqn:E; simpl; [by eexists | done |].
       by apply Hdescribe in E. }
  2: by eexists.
  destruct (disconnect (client s)) as [|thrown]; simpl; [by eexists |].
  destruct (describe thrown) eqn:E; simpl; [by eexists | done |].
  by apply Hdescribe in E.
Qed.

(** The promise always settles. *)
Lemma runSingleClient_settles :
  promise (runSingleClient this s id) ≠ StillPending.
Proof.
  pose proof runSingleClient_cases as H.
  destruct (firstFailure this s id) as [thrown|].
  - destruct (describe thrown); [| congruence | done].
    destruct H as (r & -> & _). done.
  - destruct H as (r & -> & _). done.
Qed.

(** A result that is returned records the first failure, if any. *)
Lemma runSingleClient_outcome r :
  promise (runSingleClient this s id) = Fulfilled r →
  recorded s id r ∧
  match firstFailure this s id with
  | None => success r = true ∧ error r = None
  | Some thrown =>
      success r = false ∧
      ∃ message, describe thrown = Fulfilled message ∧ error r = Some message
  end.
Proof.
  intros Hr. pose proof runSingleClient_cases as H.
  destruct (firstFailure this s id) as [thrown|].
  - destruct (describe thrown) as [message|raised|]; [| congruence | done].
    destruct H as (r' & Hr' & Hrec & Hs & He).
    assert (r' = r) as -> by congruence. split_and!; try done. by exists message.
  - destruct H as (r' & Hr' & Hrec & Hs & He).
    assert (r' = r) as -> by congruence. done.
Qed.

(** An outcome is returned unless the [catch] block throws. *)
Lemma runSingleClient_returns :
  (∀ raised, firstFailure this s id ≠ Some (Uncoercible raised)) →
  ∃ r, promise (runSingleClient this s id) = Fulfilled r.
Proof.
  intros Hdescribed. pose proof runSingleClient_cases as H.
  destruct (firstFailure this s id) as [[message|coerced|raised]|]; simpl in H.
  - destruct H as (r & Hr & _). by exists r.
  - destruct H as (r & Hr & _). by exists r.
  - by destruct (Hdescribed raised).
  - destruct H as (r & Hr & _). by exists r.
Qed.


End SessionRunner.


(* ================================================================== *)
(** ** Facts about the race in [runStressTest] *)
(* ================================================================== *)

Section Race.

Variables (promises : list (Settlement StressTestResult)) (timer : Timer).

Implicit Types (values : list (option StressTestResult)) (events : list Event).

Lemma filledFrom_start : filledFrom promises (replicate (length promises) None).
Proof.
  split; [apply length_replicate |].
  intros k r [H _]%lookup_replicate. discriminate H.
Qed.

Lemma filledFrom_insert values k r :
  filledFrom promises values → promises !! k = Some (Fulfilled r) →
  filledFrom promises (<[k := Some r]> values).
Proof.
  intros [Hlen Hfill] Hk. split; [by rewrite length_insert |].
  intros j r' Hj. destruct (decide (k = j)) as [->|Hne].
  - rewrite list_lookup_insert_eq in Hj; [congruence |].
    rewrite Hlen. by eapply lookup_lt_Some.
  - rewrite list_lookup_insert_ne in Hj by done. by apply Hfill.
Qed.

Lemma filledFrom_all values rs :
  filledFrom promises values → mapM id values = Some rs →
  Forall2 (λ p r, p = Fulfilled r) promises rs.
Proof.
  intros [Hlen Hfill] Hall%mapM_Some.
  apply Forall2_same_length_lookup. split.
  - rewrite <- Hlen. by eapply Forall2_length.
  - intros k p r Hp Hr.
    destruct (Forall2_lookup_r _ _ _ _ _ Hall Hr) as (v & Hv & Hid).
    simpl in Hid. subst v. apply Hfill in Hv. congruence.
Qed.

(** When the race is fulfilled, its value is the values of all client
    promises, in the order of the array. *)
Lemma race_fulfilled events values rs :
  filledFrom promises values →
  raceAllWithTimer promises values timer events = Fulfilled rs →
  Forall2 (λ p r, p = Fulfilled r) promises rs.
Proof.
  revert values. induction events as [|ev events IH]; intros values Hinv; simpl.
  - destruct (mapM id values) as [rs'|] eqn:E; [| done].
    intros [= <-]. by eapply filledFrom_all.
  - destruct (mapM id values) as [rs'|] eqn:E.
    { intros [= <-]. by eapply filledFrom_all. }
    destruct ev as [k|]; [| done].
    destruct (promises !! k) as [[r|thrown|]|] eqn:Hk; try done.
    + apply IH. by apply filledFrom_insert.
    + by apply IH.
    + by apply IH.
Qed.

(** The race is rejected by the timer or by a rejected client promise. *)
Lemma race_rejected events values thrown :
  raceAllWithTimer promises values timer events = Rejected thrown →
  thrown = reason timer ∨ Rejected thrown ∈ promises.
Proof.
  revert values. induction events as [|ev events IH]; intros values; simpl.
  - by destruct (mapM id values).
  - destruct (mapM id values); [done |].
    destruct ev as [k|]; [| intros [= <-]; by left].
    destruct (promises !! k) as [[r|thrown'|]|] eqn:Hk; try apply IH.
    intros [= <-]. right. by eapply list_elem_of_lookup_2.
Qed.

(** If every client promise is fulfilled at some point and the event
    loop delivers all of them before the timer, the race is fulfilled. *)
Lemma race_all_settle events values :
  Forall (λ p, ∃ r, p = Fulfilled r) promises →
  length values = length promises →
  (∀ k, (k < length promises)%nat →
        is_Some (values !! k ≫= id) ∨ k ∈ settledBeforeDeadline events) →
  ∃ rs, raceAllWithTimer promises values timer events = Fulfilled rs.
Proof.
  intros Hall. revert values.
  assert (∀ values, length values = length promises →
            (∀ k, (k < length promises)%nat → is_Some (values !! k ≫= id)) →
            is_Some (mapM id values)) as Hdone.
  { intros values Hlen Hfilled. apply mapM_is_Some, Forall_lookup.
    intros k v Hv. specialize (Hfilled k). rewrite Hv in Hfilled.
    apply Hfilled. rewrite <- Hlen. by eapply lookup_lt_Some. }
  induction events as [|ev events IH]; intros values Hlen Hcov; simpl.
  - destruct (Hdone values Hlen) as [rs ->]; [| by exists rs].
    intros k Hk. destruct (Hcov k Hk) as [?|Hin]; [done |].
    by apply elem_of_nil in Hin.
  - destruct (mapM id values) as [rs|] eqn:E; [by exists rs |].
    destruct ev as [k|].
    + destruct (promises !! k) as [p|] eqn:Hk.
      * destruct (proj1 (Forall_lookup _ _) Hall k p Hk) as [r ->].
        apply IH; [by rewrite length_insert |].
        intros j Hj. destruct (decide (k = j)) as [->|Hne].
        -- left. rewrite list_lookup_insert_eq by lia. by eexists.
        -- rewrite list_lookup_insert_ne by done.
           destruct (Hcov j Hj) as [?|Hin]; [by left | right].
           simpl in Hin. apply elem_of_cons in Hin as [->|Hin]; done.
      * apply IH; [done |].
        intros j Hj. destruct (Hcov j Hj) as [?|Hin]; [by left | right].
        simpl in Hin. apply elem_of_cons in Hin as [->|Hin]; [| done].
        apply lookup_ge_None in Hk. lia.
    + destruct (Hdone values Hlen) as [rs Hrs]; [| congruence].
      intros k Hk. destruct (Hcov k Hk) as [?|Hin]; [done |].
      by apply elem_of_nil in Hin.
Qed.

End Race.

(* ================================================================== *)
(** ** Properties of [runSingleClient] *)
(* ================================================================== *)

(** C7: the global deadline is strictly longer than the per-session
    deadline: the batch timer is set to 210 000 ms, the timer of every
    session to 180 000 ms. *)
Theorem global_deadline_exceeds_session_deadline (clientId : Z) :
  delay (timeoutPromise clientId) = 180000 ∧
  delay globalTimeoutPromise = 210000 ∧
  delay (timeoutPromise clientId) < delay globalTimeoutPromise.
Proof. simpl. lia. Qed.



(** C2, as the code has it: every outcome of [runSingleClient] satisfies
    [success = true] iff [error] is absent, and has its [endTime] and its
    [duration = endTime - startTime] set, on the failure path as well as
    on the success path; and an outcome is returned unless the [catch]
    block throws. *)
Theorem outcome_invariant (this : StressTestRunner) (s : Session) (id : Z) :
  (∀ r, promise (runSingleClient this s id) = Fulfilled r →
        (success r = true ↔ error r = None) ∧
        is_Some (endTime r) ∧
        is_Some (duration r) ∧
        duration r = Some (clockAtEnd s - startTime r)) ∧
  ((∀ raised, firstFailure this s id ≠ Some (Uncoercible raised)) →
   ∃ r, promise (runSingleClient this s id) = Fulfilled r).
Proof.
  split; [| apply runSingleClient_returns].
  intros r Hr.
  destruct (runSingleClient_outcome this s id r Hr) as [(_ & Hstart & Hend & Hdur) H].
  rewrite Hstart, Hend, Hdur. split_and!; try done.
  destruct (firstFailure this s id) as [thrown|].
  - destruct H as [-> (message & _ & ->)]. done.
  - destruct H as [-> ->]. done.
Qed.

(** The outcome of the session whose [connect] is refused, and that of a
    session that works. *)
Lemma outcome_invariant_witness :
  let r := {| clientId := 2; success := false; startTime := 5;
              endTime := Some 45; duration := Some 40;
              error := Some "Connection refused" |} in
  promise (runSingleClient (Scenario.runner 3) (Scenario.secondRefused 2) 2) =
    Fulfilled r ∧
  (success r = true ↔ error r = None) ∧
  is_Some (endTime r) ∧
  is_Some (duration r) ∧
  duration r = Some (clockAtEnd (Scenario.secondRefused 2) - startTime r).
Proof.
  split; [reflexivity |].
  apply (proj1 (outcome_invariant (Scenario.runner 3) (Scenario.secondRefused 2) 2)).
  reflexivity.
Defined.

(** C2, as stated, fails: the outcome of a session whose [connect] is
    refused has [success = false] and an [error], and yet a [duration]. *)
Lemma failed_outcome_has_duration :
  let r := {| clientId := 2; success := false; startTime := 5;
              endTime := Some 45; duration := Some 40;
              error := Some "Connection refused" |} in
  promise (runSingleClient (Scenario.runner 3) (Scenario.secondRefused 2) 2) =
    Fulfilled r ∧
  ¬ ((success r = true ↔ error r = None) ∧ (error r = None ↔ is_Some (duration r))).
Proof.
  split; [reflexivity |].
  intros [_ [_ H]]. simpl in H.
  assert (Some "Connection refused" = None) as Habs by (apply H; by eexists).
  discriminate Habs.
Qed.

(* ================================================================== *)
(** ** Facts about [runStressTest] *)
(* ================================================================== *)

#[global] Instance Thrown_eq_dec : EqDecision Thrown.
Proof. solve_decision. Defined.

#[global] Instance StressTestResult_eq_dec : EqDecision StressTestResult.
Proof. solve_decision. Defined.

#[global] Instance Settlement_eq_dec {A : Type} `{EqDecision A} :
  EqDecision (Settlement A).
Proof. solve_decision. Defined.

(** A race that is fulfilled has received every settlement it did not
    already hold before the timer fired. *)
Lemma race_fulfilled_settled promises timer events values rs :
  raceAllWithTimer promises values timer events = Fulfilled rs →
  ∀ k, (k < length values)%nat →
       is_Some (values !! k ≫= id) ∨ k ∈ settledBeforeDeadline events.
Proof.
  assert (∀ (values : list (option StressTestResult)) rs,
            mapM id values = Some rs →
            ∀ k, (k < length values)%nat → is_Some (values !! k ≫= id)) as Hall.
  { intros vs rs' Hm%mapM_Some k Hk.
    destruct (lookup_lt_is_Some_2 vs k Hk) as [v Hv].
    destruct (Forall2_lookup_l _ _ _ _ _ Hm Hv) as (r & _ & Hr).
    rewrite Hv. simpl in *. rewrite Hr. by eexists. }
  revert values. induction events as [|ev events IH]; intros values; simpl.
  - destruct (mapM id values) as [rs'|] eqn:E; [| done].
    intros _ k Hk. left. by eapply Hall.
  - destruct (mapM id values) as [rs'|] eqn:E.
    { intros _ k Hk. left. by eapply Hall. }
    destruct ev as [j|]; [| done].
    destruct (promises !! j) as [[r|thrown|]|] eqn:Hj; try done.
    + intros H k Hk. destruct (decide (j = k)) as [->|Hne].
      * right. simpl. apply list_elem_of_here.
      * destruct (IH _ H k) as [Hs|Hin].
        -- by rewrite length_insert.
        -- left. by rewrite list_lookup_insert_ne in Hs.
        -- right. simpl. by apply list_elem_of_further.
    + intros H k Hk. destruct (IH _ H k Hk) as [?|Hin]; [by left | right].
      simpl. by apply list_elem_of_further.
    + intros H k Hk. destruct (IH _ H k Hk) as [?|Hin]; [by left | right].
      simpl. by apply list_elem_of_further.
Qed.

(** A race that is still pending has not seen the timer. *)
Lemma race_pending promises timer events values :
  raceAllWithTimer promises values timer events = StillPending →
  GlobalTimerFires ∉ events.
Proof.
  revert values. induction events as [|ev events IH]; intros values; simpl.
  - intros _. apply not_elem_of_nil.
  - destruct (mapM id values); [done |].
    destruct ev as [k|]; [| done].
    intros H. apply not_elem_of_cons. split; [done |].
    destruct (promises !! k) as [[r|thrown|]|]; try done; by eapply IH.
Qed.

(** A race rejected by something that is no rejection of a client promise
    was rejected by the timer, which it has seen. *)
Lemma race_rejected_by_timer promises timer events values thrown :
  raceAllWithTimer promises values timer events = Rejected thrown →
  Rejected thrown ∉ promises →
  thrown = reason timer ∧ GlobalTimerFires ∈ events.
Proof.
  intros H Hnot. revert values H.
  induction events as [|ev events IH]; intros values; simpl.
  - by destruct (mapM id values).
  - destruct (mapM id values); [done |].
    destruct ev as [k|]; [| intros [= <-]; split; [done | apply list_elem_of_here]].
    intros H.
    assert (thrown = reason timer ∧ GlobalTimerFires ∈ events) as [-> Hin].
    { destruct (promises !! k) as [[r|thrown'|]|] eqn:Hk; try by eapply IH.
      injection H as ->. destruct Hnot. by eapply list_elem_of_lookup_2. }
    split; [done | by apply list_elem_of_further].
Qed.

(** When every client promise settles and is delivered before the timer,
    the race is fulfilled, or rejected by one of the client promises. *)
Lemma race_delivered promises timer events
  (values : list (option StressTestResult)) :
  Forall (λ p, p ≠ StillPending) promises →
  length values = length promises →
  (∀ k, (k < length promises)%nat →
        is_Some (values !! k ≫= id) ∨ k ∈ settledBeforeDeadline events) →
  (∃ rs, raceAllWithTimer promises values timer events = Fulfilled rs) ∨
  (∃ thrown, raceAllWithTimer promises values timer events = Rejected thrown ∧
             Rejected thrown ∈ promises).
Proof.
  intros Hall. revert values.
  assert (∀ values : list (option StressTestResult), length values = length promises →
            (∀ k, (k < length promises)%nat → is_Some (values !! k ≫= id)) →
            is_Some (mapM id values)) as Hdone.
  { intros values Hlen Hfilled. apply mapM_is_Some, Forall_lookup.
    intros k v Hv. specialize (Hfilled k). rewrite Hv in Hfilled.
    apply Hfilled. rewrite <- Hlen. by eapply lookup_lt_Some. }
  induction events as [|ev events IH]; intros values Hlen Hcov; simpl.
  - destruct (Hdone values Hlen) as [rs ->]; [| left; by exists rs].
    intros k Hk. destruct (Hcov k Hk) as [?|Hin]; [done |].
    by apply elem_of_nil in Hin.
  - destruct (mapM id values) as [rs|] eqn:E; [left; by exists rs |].
    destruct ev as [k|].
    + destruct (promises !! k) as [[r|thrown|]|] eqn:Hk.
      * apply IH; [by rewrite length_insert |].
        intros j Hj. destruct (decide (k = j)) as [->|Hne].
        -- left. rewrite list_lookup_insert_eq by lia. by eexists.
        -- rewrite list_lookup_insert_ne by done.
           destruct (Hcov j Hj) as [?|Hin]; [by left | right].
           simpl in Hin. apply elem_of_cons in Hin as [->|Hin]; done.
      * right. exists thrown. split; [done | by eapply list_elem_of_lookup_2].
      * by destruct (proj1 (Forall_lookup _ _) Hall k _ Hk).
      * apply IH; [done |].
        intros j Hj. destruct (Hcov j Hj) as [?|Hin]; [by left | right].
        simpl in Hin. apply elem_of_cons in Hin as [->|Hin]; [| done].
        apply lookup_ge_None in Hk. lia.
    + destruct (Hdone values Hlen) as [rs Hrs]; [| congruence].
      intros k Hk. destruct (Hcov k Hk) as [?|Hin]; [done |].
      by apply elem_of_nil in Hin.
Qed.


Section TimerOrder.

Variables (due : list nat).

Lemma inTimerOrder_timer (events : list Event) :
  GlobalTimerFires ∈ inTimerOrder due events ↔ GlobalTimerFires ∈ events.
Proof.
  induction events as [|[k|] events IH]; simpl; [done | |].
  - rewrite !elem_of_cons, IH. split; intros [?|?]; (done || by right).
  - split; intros _; [apply list_elem_of_here |].
    apply elem_of_app. right. apply list_elem_of_here.
Qed.


End TimerOrder.

Section Orchestrator.

Variables (this : StressTestRunner) (env : Environment).

Lemma clientPromises_length :
  length (clientPromises this env) = Z.to_nat (numberOfClients this).
Proof. unfold clientPromises. by rewrite length_fmap, length_seqZ. Qed.


Lemma clientPromises_settle :
  Forall (λ p, p ≠ StillPending) (clientPromises this env).
Proof.
  unfold clientPromises. apply Forall_fmap, Forall_forall. intros i _.
  apply runSingleClient_settles.
Qed.

Lemma clientPromises_fulfilled :
  allReturn this env ↔
  Forall (λ p, ∃ r, p = Fulfilled r) (clientPromises this env).
Proof.
  unfold allReturn, clientPromises. rewrite Forall_fmap, Forall_forall. split.
  - intros H i Hi%elem_of_seqZ. apply H. lia.
  - intros H i Hi. apply (H i). apply elem_of_seqZ. lia.
Qed.



(** The value of a fulfilled race is the values of the client promises. *)
Lemma batchRace_fulfilled rs :
  batchRace this env = Fulfilled rs → clientPromises this env = Fulfilled <$> rs.
Proof.
  unfold batchRace. intros E.
  assert (Forall2 (λ p r, p = Fulfilled r) (clientPromises this env) rs) as H.
  { eapply race_fulfilled; [| exact E]. apply filledFrom_start. }
  clear E. induction H as [|p r promises rs' -> _ IH]; simpl; [done | by rewrite IH].
Qed.

(** The race is fulfilled exactly when every session returns an outcome
    and all of them are delivered before the global timer. *)
Lemma batchRace_fulfilled_iff :
  (∃ rs, batchRace this env = Fulfilled rs) ↔ allReturn this env ∧ delivered this env.
Proof.
  pose proof clientPromises_length as Hlen. split.
  - intros [rs E]. split.
    + apply clientPromises_fulfilled. rewrite (batchRace_fulfilled rs E).
      apply Forall_fmap, Forall_forall. intros r _. by exists r.
    + intros k Hk. unfold batchRace in E.
      destruct (race_fulfilled_settled _ _ _ _ _ E k) as [[v Hv]|Hin]; [| | done].
      * rewrite length_replicate. lia.
      * rewrite lookup_replicate_2 in Hv by lia. discriminate Hv.
  - intros [Hall Hdel]. unfold batchRace.
    apply race_all_settle; [by apply clientPromises_fulfilled | apply length_replicate |].
    intros k Hk. right. apply Hdel. lia.
Qed.

(** The race is rejected by a client promise that is rejected, or else by
    the global timer, which has then fired before some client promise was
    delivered. *)
Lemma batchRace_rejected thrown :
  batchRace this env = Rejected thrown →
  Rejected thrown ∈ clientPromises this env ∨
  (thrown = reason globalTimeoutPromise ∧ GlobalTimerFires ∈ schedule env ∧
   ¬ delivered this env).
Proof.
  intros E.
  destruct (decide (Rejected thrown ∈ clientPromises this env)) as [?|Hnot];
    [by left | right].
  unfold batchRace in E.
  destruct (race_rejected_by_timer _ _ _ _ _ E Hnot) as [-> Hin].
  apply inTimerOrder_timer in Hin. split_and!; [done.. |].
  intros Hdel.
  destruct (race_delivered (clientPromises this env) globalTimeoutPromise
              (inTimerOrder (dueFirst this env) (schedule env))
              (replicate (length (clientPromises this env)) None))
    as [[rs Hrs]|(thrown & Hrs & Hthrown)].
  - apply clientPromises_settle.
  - apply length_replicate.
  - intros k Hk. right. apply Hdel. rewrite clientPromises_length in Hk. lia.
  - congruence.
  - rewrite E in Hrs. by injection Hrs as <-.
Qed.

(** A race that is still pending has not seen the global timer. *)
Lemma batchRace_pending :
  batchRace this env = StillPending → GlobalTimerFires ∉ schedule env.
Proof.
  unfold batchRace. intros E%race_pending. by rewrite inTimerOrder_timer in E.
Qed.

(** A fulfilled call has stored the values of the client promises and has
    written one report, of those values. *)
Lemma runStressTest_fulfilled :
  (runStressTest this env).2 = Fulfilled tt →
  ∃ rs, clientPromises this env = Fulfilled <$> rs ∧
        runStressTest this env =
        (set_results this rs,
         [Results (printResults (set_results this rs)
                     (clockAtFinish env - clockAtLaunch env))],
         Fulfilled tt).
Proof.
  unfold runStressTest.
  destruct (batchRace this env) as [rs|thrown|] eqn:E; simpl.
  - intros _. exists rs. split; [by apply batchRace_fulfilled | done].
  - by destruct (describe thrown).
  - done.
Qed.

Lemma runStressTest_fulfilled_iff :
  (runStressTest this env).2 = Fulfilled tt ↔ allReturn this env ∧ delivered this env.
Proof.
  rewrite <- batchRace_fulfilled_iff. unfold runStressTest.
  destruct (batchRace this env) as [rs|thrown|] eqn:E; simpl.
  - split; [intros _; by exists rs | done].
  - split; [by destruct (describe thrown) | by intros [rs Hrs]].
  - split; [done | by intros [rs Hrs]].
Qed.

(** A call that is rejected, or cut in its [catch] block, has had its race
    rejected; it leaves the runner as it was. *)
Lemma runStressTest_not_fulfilled :
  (runStressTest this env).2 ≠ Fulfilled tt →
  (runStressTest this env).1.1 = this ∧
  ((runStressTest this env).2 = StillPending ∨
   ∃ thrown, batchRace this env = Rejected thrown).
Proof.
  unfold runStressTest.
  destruct (batchRace this env) as [rs|thrown|] eqn:E; simpl; [done | |].
  - intros _. split; [by destruct (describe thrown) | right; by exists thrown].
  - intros _. split; [done | by left].
Qed.

(** A rejected call has had its race rejected.  When what rejected the
    race can be described the call is rejected with it, after the notice
    and, if the runner holds results, a report of them; when describing it
    throws, the call is rejected with what that threw, the notice cut
    short. *)
Lemma runStressTest_rejected thrown :
  (runStressTest this env).2 = Rejected thrown →
  ∃ raised, batchRace this env = Rejected raised ∧
    match describe raised with
    | Fulfilled message =>
        thrown = raised ∧
        (runStressTest this env).1.2 =
          Interrupted (clockAtFinish env - clockAtLaunch env) message ::
          (if (0 <? length (results this))%nat
           then [Results (printResults this (clockAtFinish env - clockAtLaunch env))]
           else [])
    | _ =>
        describe raised = Rejected thrown ∧
        (runStressTest this env).1.2 =
          [InterruptedOnly (clockAtFinish env - clockAtLaunch env)]
    end.
Proof.
  unfold runStressTest.
  destruct (batchRace this env) as [rs|raised|] eqn:E; simpl; [done | | done].
  intros H. exists raised. split; [done |].
  destruct (describe raised) as [message|raised'|]; simpl in *; [| | done].
  - by injection H as ->.
  - by injection H as ->.
Qed.

(** A call that is still pending has not seen the global timer. *)
Lemma runStressTest_pending :
  (runStressTest this env).2 = StillPending → GlobalTimerFires ∉ schedule env.
Proof.
  unfold runStressTest.
  destruct (batchRace this env) as [rs|thrown|] eqn:E; simpl; [done | |].
  - by destruct thrown.
  - intros _. by apply batchRace_pending.
Qed.

End Orchestrator.

Lemma fulfilled_values_inj (rs rs' : list StressTestResult) :
  Fulfilled <$> rs = Fulfilled <$> rs' → rs = rs'.
Proof.
  revert rs'. induction rs as [|r rs IH]; intros [|r' rs'] H; simpl in H;
    try done. injection H as -> H. f_equal. by apply IH.
Qed.

(** The sessions of two runs that agree on the client ids launched make
    the same client promises. *)
Lemma clientPromises_ext (this : StressTestRunner) (env env' : Environment) :
  (∀ i, 1 ≤ i ≤ numberOfClients this → session env i = session env' i) →
  clientPromises this env = clientPromises this env'.
Proof.
  intros H. unfold clientPromises. apply list_fmap_ext.
  intros k i Hi. apply lookup_seqZ in Hi as [-> Hk]. rewrite H; [done | lia].
Qed.

(* ================================================================== *)
(** ** Properties of [runStressTest] *)
(* ================================================================== *)







(** C6, as the code has it: with no client the batch is fulfilled at once,
    whatever the event loop delivers, with an empty result list; the
    report shows 0 successes and 0 failures out of 0, the success rate
    [0 / 0 * 100] is not guarded and is written as [NaN], and the
    recommendation is the one for a run without failures. *)
Theorem zero_clients_report (audio : string) (env : Environment) :
  runStressTest (new_StressTestRunner (Some 0) audio) env =
  (new_StressTestRunner (Some 0) audio,
   [Results {| totalTime := clockAtFinish env - clockAtLaunch env;
               successfulCount := 0;
               failedCount := 0;
               outOf := 0;
               successRateShown := "NaN";
               errorCounts := None;
               recommendation := Excellent;
               timeoutFailures := 0 |}],
   Fulfilled tt) ∧
  PrimFloat.is_nan (successRate 0 0) = true.
Proof.
  split; [| by vm_compute].
  unfold runStressTest, batchRace. simpl.
  by destruct (inTimerOrder _ (schedule env)).
Qed.

(** C6, as stated, fails: the success rate of the empty batch is written
    as [NaN], neither as a zero rate nor as [N/A]. *)
Lemma zero_clients_rate_is_NaN :
  let run := runStressTest (Scenario.runner 0) Scenario.idle in
  run.2 = Fulfilled tt ∧
  results run.1.1 = [] ∧
  ∃ report, run.1.2 = [Results report] ∧
            successRateShown report = "NaN" ∧
            successRateShown report ≠ "0.0" ∧
            successRateShown report ≠ "0" ∧
            successRateShown report ≠ "N/A".
Proof.
  split_and!; [done.. |]. eexists. split; [reflexivity |]. by vm_compute.
Qed.

(* ================================================================== *)
(** ** Properties of [printResults] *)
(* ================================================================== *)

(** C5: the bucket of a failed outcome is found by the rules in order, the
    first that applies winning: [Timeout] when the message contains
    [timed out]; else [WebSocket Error] when it contains [WebSocket]; else
    [Server Unavailable] when it contains [Server is not available]; else
    what precedes the first [:] of the message (all of it when there is
    none); and [Unknown] when there is no message, absent or empty. *)
Theorem errorType_rules (r : StressTestResult) :
  (error r = None ∨ error r = Some ""%string → errorType r = "Unknown") ∧
  (∀ message, error r = Some message →
     (occursIn "timed out" message → errorType r = "Timeout") ∧
     (¬ occursIn "timed out" message → occursIn "WebSocket" message →
      errorType r = "WebSocket Error") ∧
     (¬ occursIn "timed out" message → ¬ occursIn "WebSocket" message →
      occursIn "Server is not available" message →
      errorType r = "Server Unavailable") ∧
     (¬ occursIn "timed out" message → ¬ occursIn "WebSocket" message →
      ¬ occursIn "Server is not available" message → message ≠ ""%string →
      precedesFirst ":" message (errorType r) ∧
      ∀ piece, precedesFirst ":" message piece → errorType r = piece)).
Proof.
  split.
  - intros [H|H]; [by apply errorType_absent | by apply errorType_empty].
  - intros message Hm. split_and!.
    + by apply errorType_timeout.
    + by apply errorType_transport.
    + by apply errorType_unavailable.
    + intros Hno1 Hno2 Hno3 Hne.
      pose proof (errorType_other r message Hm Hne Hno1 Hno2 Hno3) as H.
      split; [done |]. intros piece Hp. by eapply precedesFirst_unique.
Qed.

(** The rules at work on messages the harness meets. *)
Example errorType_examples :
  errorType_of_message "Client 8 timed out after 3 minutes" = "Timeout" ∧
  errorType_of_message "WebSocket connection timed out" = "Timeout" ∧
  errorType_of_message "WebSocket is not open: readyState 3" = "WebSocket Error" ∧
  errorType_of_message "Error: Server is not available" = "Server Unavailable" ∧
  errorType_of_message "ECONNREFUSED: connect failed: 127.0.0.1" = "ECONNREFUSED" ∧
  errorType_of_message "Connection refused" = "Connection refused" ∧
  errorType_of_message ":9090" = "" ∧
  errorType_of_message "" = "Unknown".
Proof. by vm_compute. Qed.

Section Recommendation.

Variables (s : nat) (n : Z).

Lemma at_least_80_percent :
  Qle_bool (inject_Z n * 0.8) (inject_Z (Z.of_nat s)) = true ↔ 4 * n ≤ 5 * Z.of_nat s.
Proof. unfold Qle_bool. simpl. rewrite Z.leb_le. lia. Qed.

Lemma at_least_50_percent :
  Qle_bool (inject_Z n * 0.5) (inject_Z (Z.of_nat s)) = true ↔ n ≤ 2 * Z.of_nat s.
Proof. unfold Qle_bool. simpl. rewrite Z.leb_le. lia. Qed.

Lemma recommend_cases :
  recommend s n =
  if decide (Z.of_nat s = n) then Excellent
  else if decide (4 * n ≤ 5 * Z.of_nat s) then Good
  else if decide (n ≤ 2 * Z.of_nat s) then Moderate
  else Poor.
Proof.
  unfold recommend.
  destruct (Z.eqb_spec (Z.of_nat s) n) as [He|He];
    [by rewrite decide_True | rewrite decide_False by done].
  destruct (Qle_bool (inject_Z n * 0.8) _) eqn:E8.
  - apply at_least_80_percent in E8. by rewrite decide_True.
  - rewrite decide_False.
    2: { intros H. apply at_least_80_percent in H. congruence. }
    destruct (Qle_bool (inject_Z n * 0.5) _) eqn:E5.
    + apply at_least_50_percent in E5. by rewrite decide_True.
    + rewrite decide_False; [done |].
      intros H. apply at_least_50_percent in H. congruence.
Qed.

End Recommendation.

(** The comparisons of [recommend], taken over the rationals, agree with
    the binary64 comparisons of the engine: checked for every count of
    successes out of every number of clients up to 300. *)
Lemma thresholds_in_binary64 :
  forallb (λ n, forallb (λ s, Tier_eqb (recommend s (Z.of_nat n))
                                       (recommend_binary64 s (Z.of_nat n)))
                        (seq 0 (S n)))
          (seq 0 301) = true.
Proof. by vm_compute. Qed.

(** C8: the recommendation written by [printResults] depends on the
    number of successes and the number of clients only: with at most [N]
    results, it is [Excellent] iff all [N] succeeded, [Good] iff at least
    80% but not all did, [Moderate] iff at least 50% but less than 80%
    did, and [Poor] otherwise; two successes out of three fall in the
    50% band. *)
Theorem recommendation_thresholds (this : StressTestRunner) (totalTime : Z) :
  let report := printResults this totalTime in
  let s := Z.of_nat (successfulCount report) in
  let n := numberOfClients this in
  Z.of_nat (length (results this)) ≤ n →
  recommendation report = recommend (successfulCount report) n ∧
  (recommendation report = Excellent ↔ s = n) ∧
  (recommendation report = Good ↔ 4 * n ≤ 5 * s ∧ s < n) ∧
  (recommendation report = Moderate ↔ n ≤ 2 * s ∧ 5 * s < 4 * n) ∧
  (recommendation report = Poor ↔ 2 * s < n) ∧
  recommend 2 3 = Moderate.
Proof.
  intros report s n Hle. subst report s n. simpl.
  pose proof (length_filter (λ r : StressTestResult, success r = true) (results this)) as Hs.
  rewrite recommend_cases.
  split_and!; [done | .. | done]; repeat case_decide; split; try done; lia.
Qed.

(** The run with three sessions of which the second is refused: two
    successes out of three, rate 66.7, recommendation [Moderate]. *)
Lemma recommendation_thresholds_witness :
  let this := (runStressTest (Scenario.runner 3) Scenario.twoOfThree).1.1 in
  let report := printResults this 1010 in
  let s := Z.of_nat (successfulCount report) in
  let n := numberOfClients this in
  (successfulCount report = 2%nat ∧ n = 3 ∧ successRateShown report = "66.7" ∧
   recommendation report = Moderate) ∧
  Z.of_nat (length (results this)) ≤ n ∧
  recommendation report = recommend (successfulCount report) n ∧
  (recommendation report = Excellent ↔ s = n) ∧
  (recommendation report = Good ↔ 4 * n ≤ 5 * s ∧ s < n) ∧
  (recommendation report = Moderate ↔ n ≤ 2 * s ∧ 5 * s < 4 * n) ∧
  (recommendation report = Poor ↔ 2 * s < n) ∧
  recommend 2 3 = Moderate.
Proof.
  split; [by vm_compute |].
  split; [by vm_compute |].
  apply (recommendation_thresholds
           (runStressTest (Scenario.runner 3) Scenario.twoOfThree).1.1 1010).
  by vm_compute.
Defined.

(** C9: classifying the same outcomes again gives the same bucket counts.
    The bucket of an outcome depends on its [error] field only; the counts
    written by [printResults] depend on the results held by the runner
    only, not on the call or on the other fields of the runner; the map of
    counts depends only on the [error] fields of the outcomes it is built
    from; and the count of each bucket does not depend on the order of the
    outcomes. *)
Theorem classification_is_repeatable :
  (∀ r r', error r = error r' → errorType r = errorType r') ∧
  (∀ this this' t t', results this = results this' →
     errorCounts (printResults this t) = errorCounts (printResults this' t')) ∧
  (∀ l l', error <$> l = error <$> l' → failureAnalysis l = failureAnalysis l') ∧
  (∀ l l' bucket, l ≡ₚ l' →
     Map_get (failureAnalysis l) bucket = Map_get (failureAnalysis l') bucket).
Proof.
  split_and!.
  - apply errorType_error.
  - intros this this' t t' H. unfold printResults. simpl. by rewrite H.
  - apply failureAnalysis_error.
  - intros l l' bucket H.
    by rewrite !failureAnalysis_get, (countOf_Permutation bucket l l' H).
Qed.

(** C10: the failure analysis partitions the failed outcomes.  When there
    is a failed outcome, the buckets are distinct, each bucket holds the
    number of failed outcomes classified in it, and the counts add up to
    the number of failed outcomes; when there is none, no analysis is
    written.  An outcome whose message is the empty string is counted in
    [Unknown], as one without a message is. *)
Theorem histogram_partitions_failures (this : StressTestRunner) (totalTime : Z) :
  let report := printResults this totalTime in
  let failed := filter (λ r, success r = false) (results this) in
  failedCount report = length failed ∧
  match errorCounts report with
  | Some counts =>
      totalCount counts = Z.of_nat (failedCount report) ∧
      NoDup counts.*1 ∧
      ∀ bucket, countIn counts bucket = countOf bucket failed
  | None => failedCount report = 0%nat
  end ∧
  (∀ r, error r = Some ""%string → errorType r = "Unknown") ∧
  (∀ r, error r = None → errorType r = "Unknown").
Proof.
  intros report failed. subst report. unfold printResults. simpl.
  fold failed. split_and!; [done | | apply errorType_empty | apply errorType_absent].
  destruct (Nat.ltb_spec 0 (length failed)) as [Hlt|Hge].
  - split_and!.
    + apply failureAnalysis_total.
    + apply failureAnalysis_NoDup.
    + intros bucket. apply failureAnalysis_countIn.
  - lia.
Qed.

(** The failure analysis of a run with one refused and three timed out
    sessions. *)
Example failureAnalysis_example :
  failureAnalysis
    [ {| clientId := 1; success := false; startTime := 0; endTime := Some 9;
         duration := Some 9; error := Some "Client 1 timed out after 3 minutes" |};
      {| clientId := 2; success := false; startTime := 0; endTime := Some 9;
         duration := Some 9; error := Some "" |};
      {| clientId := 3; success := false; startTime := 0; endTime := Some 9;
         duration := Some 9; error := Some "Client 3 timed out after 3 minutes" |};
      {| clientId := 4; success := false; startTime := 0; endTime := None;
         duration := None; error := None |} ]
  = [("Timeout", 2); ("Unknown", 2)].
Proof. reflexivity. Qed.

(* ================================================================== *)
(** ** Further properties of [runStressTest] *)
(* ================================================================== *)

(** How a call of [runStressTest] settles.  It is fulfilled iff every
    session returns an outcome and all of them are delivered before the
    global timer.  The race it awaits is rejected either by a session that
    rejects, or by the global timer with the batch timeout error, and by
    the timer only when it fired before some session was delivered; the
    call is then rejected with the same value, or with what describing
    that value threw.  It keeps waiting only as long as the global timer
    has not fired.  When every session returns an outcome, the call is
    rejected with the batch timeout error iff the global timer fired
    before all of them were delivered. *)
Theorem batch_settlement (this : StressTestRunner) (env : Environment) :
  let settled := (runStressTest this env).2 in
  (settled = Fulfilled tt ↔ allReturn this env ∧ delivered this env) ∧
  (∀ thrown, batchRace this env = Rejected thrown →
     Rejected thrown ∈ clientPromises this env ∨
     (thrown = reason globalTimeoutPromise ∧ GlobalTimerFires ∈ schedule env ∧
      ¬ delivered this env)) ∧
  (∀ thrown, settled = Rejected thrown →
     ∃ raised, batchRace this env = Rejected raised ∧
               (raised = thrown ∨ describe raised = Rejected thrown)) ∧
  (settled = StillPending → GlobalTimerFires ∉ schedule env) ∧
  (allReturn this env →
   (settled = Rejected (reason globalTimeoutPromise) ↔
    GlobalTimerFires ∈ schedule env ∧ ¬ delivered this env)).
Proof.
  intros settled. subst settled.
  pose proof (runStressTest_fulfilled_iff this env) as Hful.
  assert (∀ thrown, (runStressTest this env).2 = Rejected thrown →
            ∃ raised, batchRace this env = Rejected raised ∧
                      (raised = thrown ∨ describe raised = Rejected thrown)) as Hrej.
  { intros thrown (raised & Hrace & H)%runStressTest_rejected.
    exists raised. split; [done |].
    destruct (describe raised); [left; by destruct H | right.. ]; by destruct H. }
  split_and!; [done | apply batchRace_rejected | done | apply runStressTest_pending |].
  intros Hall.
  assert (∀ raised, batchRace this env = Rejected raised →
            raised = reason globalTimeoutPromise ∧ GlobalTimerFires ∈ schedule env ∧
            ¬ delivered this env) as Htimer.
  { intros raised [Hin|H]%batchRace_rejected; [| done].
    apply clientPromises_fulfilled in Hall.
    apply (proj1 (Forall_forall _ _) Hall) in Hin as [r Hr]. discriminate Hr. }
  split.
  - intros (raised & Hrace & _)%Hrej. by destruct (Htimer raised Hrace) as (_ & ? & ?).
  - intros [Hin Hnot].
    destruct (runStressTest this env).2 as [[]|thrown|] eqn:E.
    + destruct Hnot. by apply Hful.
    + destruct (Hrej thrown eq_refl) as (raised & Hrace & H).
      destruct (Htimer raised Hrace) as (-> & _).
      destruct H as [<-|H]; [done | discriminate H].
    + by destruct (runStressTest_pending this env E).
Qed.

(** The results of a completed batch are the sessions' own outcomes, in
    the order of the client ids: they do not depend on the order in which
    the sessions settle, nor on what the event loop delivers besides. *)
Theorem results_do_not_depend_on_order
    (this : StressTestRunner) (env env' : Environment) :
  (∀ i, 1 ≤ i ≤ numberOfClients this → session env i = session env' i) →
  (runStressTest this env).2 = Fulfilled tt →
  (runStressTest this env').2 = Fulfilled tt →
  results (runStressTest this env).1.1 = results (runStressTest this env').1.1 ∧
  Fulfilled <$> results (runStressTest this env).1.1 =
    (λ i, promise (runSingleClient this (session env i) i))
      <$> seqZ 1 (numberOfClients this).
Proof.
  intros Hsame H1 H2.
  destruct (runStressTest_fulfilled this env H1) as (rs & Hrs & ->).
  destruct (runStressTest_fulfilled this env' H2) as (rs' & Hrs' & ->).
  simpl. split; [| by rewrite <- Hrs].
  apply fulfilled_values_inj.
  by rewrite <- Hrs, <- Hrs', (clientPromises_ext this env env' Hsame).
Qed.

(** Three sessions settling as 2, 1, 3 and as 1, 2, 3. *)
Lemma results_do_not_depend_on_order_witness :
  let this := Scenario.runner 3 in
  let env := Scenario.twoOfThree in
  let env' := Situation.inLaunchOrder in
  schedule env ≠ schedule env' ∧
  results (runStressTest this env).1.1 = results (runStressTest this env').1.1 ∧
  Fulfilled <$> results (runStressTest this env).1.1 =
    (λ i, promise (runSingleClient this (session env i) i))
      <$> seqZ 1 (numberOfClients this).
Proof.
  split; [discriminate |].
  apply (results_do_not_depend_on_order (Scenario.runner 3) Scenario.twoOfThree
           Situation.inLaunchOrder); reflexivity.
Defined.

(** A runner is not reset between calls.  When a call that completed is
    followed by a call that is rejected, the runner keeps the results of
    the first call.  When what rejected the race of the second call can be
    described, the call is rejected with it and the report written after
    the interruption notice is the report of those earlier results; when
    describing it throws, the notice is cut short and nothing is
    reported. *)
Theorem interrupted_call_reports_earlier_results
    (this : StressTestRunner) (env env' : Environment) (thrown : Thrown) :
  let first := runStressTest this env in
  let second := runStressTest first.1.1 env' in
  1 ≤ numberOfClients this →
  first.2 = Fulfilled tt →
  second.2 = Rejected thrown →
  results second.1.1 = results first.1.1 ∧
  ∃ raised, batchRace first.1.1 env' = Rejected raised ∧
    match describe raised with
    | Fulfilled message =>
        thrown = raised ∧
        second.1.2 =
          [Interrupted (clockAtFinish env' - clockAtLaunch env') message;
           Results (printResults first.1.1 (clockAtFinish env' - clockAtLaunch env'))]
    | _ =>
        describe raised = Rejected thrown ∧
        second.1.2 = [InterruptedOnly (clockAtFinish env' - clockAtLaunch env')]
    end.
Proof.
  intros first second Hn H1 H2. subst first second.
  destruct (runStressTest_fulfilled this env H1) as (rs & Hrs & Hrun).
  rewrite Hrun in H2 |- *. cbn [fst snd] in H2 |- *.
  assert (length rs ≠ 0%nat) as Hlen.
  { pose proof (clientPromises_length this env) as Hl.
    rewrite Hrs, length_fmap in Hl. lia. }
  split.
  - destruct (runStressTest_not_fulfilled (set_results this rs) env') as [-> _];
      [congruence | done].
  - destruct (runStressTest_rejected (set_results this rs) env' thrown H2)
      as (raised & Hrace & H).
    exists raised. split; [done |].
    destruct (describe raised) as [message|raised'|]; [| done..].
    destruct H as [-> ->]. split; [done |]. cbn [results set_results].
    destruct (Nat.ltb_spec 0 (length rs)); [done | lia].
Qed.

(** Three sessions completed; then, on the same runner, the second session
    rejects with a value that its [catch] block cannot describe. *)
Lemma interrupted_call_reports_earlier_results_witness :
  let first := runStressTest (Scenario.runner 3) Scenario.twoOfThree in
  let second := runStressTest first.1.1 Situation.cutShort in
  (1 ≤ numberOfClients (Scenario.runner 3) ∧ first.2 = Fulfilled tt ∧
   second.2 = Rejected (ErrorObject "Cannot convert object to primitive value")) ∧
  results second.1.1 = results first.1.1 ∧
  ∃ raised, batchRace first.1.1 Situation.cutShort = Rejected raised ∧
    match describe raised with
    | Fulfilled message =>
        ErrorObject "Cannot convert object to primitive value" = raised ∧
        second.1.2 =
          [Interrupted (clockAtFinish Situation.cutShort
                        - clockAtLaunch Situation.cutShort) message;
           Results (printResults first.1.1
                      (clockAtFinish Situation.cutShort
                       - clockAtLaunch Situation.cutShort))]
    | _ =>
        describe raised
          = Rejected (ErrorObject "Cannot convert object to primitive value") ∧
        second.1.2 = [InterruptedOnly (clockAtFinish Situation.cutShort
                                       - clockAtLaunch Situation.cutShort)]
    end.
Proof.
  split; [by vm_compute |].
  apply (interrupted_call_reports_earlier_results (Scenario.runner 3)
           Scenario.twoOfThree Situation.cutShort
           (ErrorObject "Cannot convert object to primitive value"));
    by vm_compute.
Defined.

Lemma filter_success_length (l : list StressTestResult) :
  (length (filter (λ r, success r = true) l) +
   length (filter (λ r, success r = false) l) = length l)%nat.
Proof.
  induction l as [|r l IH]; [done |].
  rewrite !filter_cons. destruct (success r); simpl; lia.
Qed.

(** The report of a completed batch accounts for every client once: it is
    the only thing written, it is out of [N], and its successes and its
    failures add up to [N]. *)
Theorem completed_batch_counts_every_client
    (this : StressTestRunner) (env : Environment) :
  0 ≤ numberOfClients this →
  (runStressTest this env).2 = Fulfilled tt →
  ∃ report, (runStressTest this env).1.2 = [Results report] ∧
            totalTime report = clockAtFinish env - clockAtLaunch env ∧
            outOf report = numberOfClients this ∧
            Z.of_nat (successfulCount report + failedCount report) =
              numberOfClients this.
Proof.
  intros Hn H.
  destruct (runStressTest_fulfilled this env H) as (rs & Hrs & ->).
  eexists. split; [reflexivity |]. simpl. split_and!; [done.. |].
  rewrite filter_success_length.
  pose proof (clientPromises_length this env) as Hl.
  rewrite Hrs, length_fmap in Hl. lia.
Qed.

Lemma completed_batch_counts_every_client_witness :
  let run := runStressTest (Scenario.runner 3) Scenario.twoOfThree in
  (0 ≤ numberOfClients (Scenario.runner 3) ∧ run.2 = Fulfilled tt) ∧
  ∃ report, run.1.2 = [Results report] ∧
            totalTime report = 1010 - 0 ∧
            outOf report = 3 ∧
            Z.of_nat (successfulCount report + failedCount report) = 3.
Proof.
  split; [by vm_compute |].
  apply (completed_batch_counts_every_client (Scenario.runner 3) Scenario.twoOfThree);
    by vm_compute.
Defined.

(* ================================================================== *)
(** ** Further properties of [printResults] *)
(* ================================================================== *)

(** With as many results as clients, the recommendation [Excellent], a
    zero count of failures, the absence of the failure analysis and of
    the timeout note all go together. *)
Theorem excellent_means_no_failure (this : StressTestRunner) (totalTime : Z) :
  let report := printResults this totalTime in
  Z.of_nat (length (results this)) = numberOfClients this →
  (recommendation report = Excellent ↔ failedCount report = 0%nat) ∧
  (failedCount report = 0%nat ↔ errorCounts report = None) ∧
  (failedCount report = 0%nat → timeoutFailures report = 0%nat).
Proof.
  intros report Hlen. subst report. unfold printResults. simpl.
  pose proof (filter_success_length (results this)) as Hsum.
  set (failed := filter (λ r, success r = false) (results this)) in *.
  rewrite recommend_cases. split_and!.
  - case_decide; [split; [intros _; lia | done] |].
    split; [by repeat case_decide | intros H0; lia].
  - destruct (Nat.ltb_spec 0 (length failed)); split; try done; lia.
  - intros H0. destruct failed; [done | discriminate H0].
Qed.

Lemma excellent_means_no_failure_witness :
  let this := (runStressTest (Scenario.runner 3) Situation.inLaunchOrder).1.1 in
  let report := printResults this 1010 in
  Z.of_nat (length (results this)) = numberOfClients this ∧
  (recommendation report = Excellent ↔ failedCount report = 0%nat) ∧
  (failedCount report = 0%nat ↔ errorCounts report = None) ∧
  (failedCount report = 0%nat → timeoutFailures report = 0%nat).
Proof.
  split; [by vm_compute |].
  apply (excellent_means_no_failure
           (runStressTest (Scenario.runner 3) Situation.inLaunchOrder).1.1 1010).
  by vm_compute.
Defined.

Lemma timedOut_errorType (r : StressTestResult) :
  timedOut r = true → errorType r = "Timeout".
Proof.
  unfold timedOut. destruct (error r) as [message|] eqn:E; [| done].
  intros H. apply includes_spec in H. by eapply errorType_timeout.
Qed.

Lemma timedOut_count (l : list StressTestResult) :
  Z.of_nat (length (filter (λ r, timedOut r = true) l)) ≤ countOf "Timeout" l.
Proof.
  unfold countOf. induction l as [|r l IH]; [done |].
  rewrite !filter_cons. destruct (decide (timedOut r = true)) as [H|H].
  - rewrite decide_True by by apply timedOut_errorType. simpl. lia.
  - case_decide; simpl; lia.
Qed.

(** The number of the timeout note counts failed outcomes only and never
    exceeds the count of the [Timeout] bucket; it can be smaller, since a
    message that begins with [Timeout:] lands in that bucket without
    holding the words [timed out]. *)
Theorem timeout_note_within_Timeout_bucket (this : StressTestRunner) (totalTime : Z) :
  let report := printResults this totalTime in
  (timeoutFailures report ≤ failedCount report)%nat ∧
  match errorCounts report with
  | Some counts => Z.of_nat (timeoutFailures report) ≤ countIn counts "Timeout"
  | None => timeoutFailures report = 0%nat
  end ∧
  ∃ r, errorType r = "Timeout" ∧ timedOut r = false.
Proof.
  intros report. subst report. unfold printResults. simpl.
  set (failed := filter (λ r, success r = false) (results this)).
  split_and!.
  - apply length_filter.
  - destruct (Nat.ltb_spec 0 (length failed)) as [Hlt|Hge].
    + rewrite failureAnalysis_countIn. apply timedOut_count.
    + destruct failed; [done | simpl in Hge; lia].
  - by exists {| clientId := 1; success := false; startTime := 0; endTime := Some 9;
                 duration := Some 9; error := Some "Timeout: no answer" |}.
Qed.

Section BucketNames.

Lemma firstOccurrences_elem (x : string) (l : list string) :
  x ∈ firstOccurrences l ↔ x ∈ l.
Proof.
  induction l as [|y l IH]; simpl; [done |].
  rewrite !elem_of_cons, list_elem_of_filter, IH.
  destruct (decide (x = y)); tauto.
Qed.

Lemma firstOccurrences_snoc (x : string) (l : list string) :
  firstOccurrences (l ++ [x]) =
  if decide (x ∈ l) then firstOccurrences l else firstOccurrences l ++ [x].
Proof.
  induction l as [|y l IH]; [done |].
  cbn [app firstOccurrences].
  - rewrite IH. destruct (decide (x = y)) as [->|Hne].
    + rewrite (decide_True (P := y ∈ y :: l)) by apply list_elem_of_here.
      case_decide; [done |].
      rewrite filter_app, filter_cons, filter_nil, decide_False by naive_solver.
      by rewrite app_nil_r.
    + destruct (decide (x ∈ l)) as [Hin|Hout].
      * by rewrite decide_True by by apply list_elem_of_further.
      * rewrite decide_False.
        2: { intros [?|?]%elem_of_cons; done. }
        by rewrite filter_app, filter_cons, filter_nil, decide_True.
Qed.

(** The buckets of the failure analysis are written in the order in which
    each kind of failure occurs first among the failed outcomes. *)
Theorem failure_analysis_order (l : list StressTestResult) :
  (failureAnalysis l).*1 = firstOccurrences (errorType <$> l).
Proof.
  induction l as [|r l IH] using rev_ind; [done |].
  rewrite failureAnalysis_snoc, fmap_app. simpl.
  rewrite firstOccurrences_snoc. unfold countError.
  destruct (decide (errorType r ∈ (failureAnalysis l).*1)) as [Hin|Hout].
  - rewrite Map_set_keys_present by done.
    rewrite decide_True; [done |]. by rewrite IH, firstOccurrences_elem in Hin.
  - rewrite Map_set_keys_absent by done.
    rewrite decide_False; [by rewrite IH |].
    by rewrite IH, firstOccurrences_elem in Hout.
Qed.

Lemma split_first_empty (message : string) :
  (split message ":").1 = ""%string ↔
  message = ""%string ∨ ∃ rest, message = String ":" rest.
Proof.
  destruct message as [|c rest]; simpl; [split; [by left | done] |].
  destruct (split rest ":") as [piece pieces].
  destruct (Ascii.eqb_spec c ":") as [->|Hne]; simpl.
  - split; [intros _; right; by exists rest | done].
  - split; [done | intros [H|[rest' H]]; [done | congruence]].
Qed.

(** No bucket name holds a [:]; and a failure is counted under the empty
    name exactly when its message begins with [:] and holds none of the
    three markers. *)
Theorem bucket_names (r : StressTestResult) :
  (":"%char ∉ String.list_ascii_of_string (errorType r)) ∧
  (errorType r = ""%string ↔
   ∃ rest, error r = Some (String ":" rest) ∧
           ¬ occursIn "timed out" (String ":" rest) ∧
           ¬ occursIn "WebSocket" (String ":" rest) ∧
           ¬ occursIn "Server is not available" (String ":" rest)).
Proof.
  assert (∀ s needle, includes s needle = false ↔ ¬ occursIn needle s) as Hno.
  { intros s needle. rewrite <- includes_spec. by destruct (includes s needle). }
  unfold errorType. destruct (error r) as [message|].
  2: { split; [rewrite list_elem_of_In; simpl; intuition discriminate |].
       split; [done | intros (rest & H & _); discriminate H]. }
  destruct message as [|c rest].
  { split; [rewrite list_elem_of_In; simpl; intuition discriminate |].
    split; [done | intros (rest & H & _); discriminate H]. }
  cbn [truthy].
  destruct (includes (String c rest) "timed out") eqn:E1.
  { split; [rewrite list_elem_of_In; simpl; intuition discriminate |].
    split; [done | intros (rest' & [= -> ->] & H & _)].
    apply Hno in H. congruence. }
  destruct (includes (String c rest) "WebSocket") eqn:E2.
  { split; [rewrite list_elem_of_In; simpl; intuition discriminate |].
    split; [done | intros (rest' & [= -> ->] & _ & H & _)].
    apply Hno in H. congruence. }
  destruct (includes (String c rest) "Server is not available") eqn:E3.
  { split; [rewrite list_elem_of_In; simpl; intuition discriminate |].
    split; [done | intros (rest' & [= -> ->] & _ & _ & H)].
    apply Hno in H. congruence. }
  split; [apply split_first_spec |].
  rewrite split_first_empty. split.
  - intros [H|[rest' H]]; [done |]. injection H as -> ->.
    exists rest'. by rewrite <- !Hno.
  - intros (rest' & H & _). injection H as -> ->. right. by exists rest'.
Qed.

End BucketNames.

(* ================================================================== *)
(** ** Properties of the timing block *)
(* ================================================================== *)

Section Timing.

Implicit Types (args : list (option Z)).

Lemma Math_min_numbers args :
  Forall is_Some args → args ≠ [] →
  ∃ lo, Math_min args = Value lo ∧ Some lo ∈ args ∧ ∀ d, Some d ∈ args → lo ≤ d.
Proof.
  induction 1 as [|arg args [x ->] Hall IH]; [done |]. intros _.
  destruct args as [|arg' args'].
  - exists x. simpl. split_and!; [done | apply list_elem_of_here |].
    intros d [[= ->]|Hd%elem_of_nil]%elem_of_cons; [lia | done].
  - destruct IH as (y & Hy & Hin & Hle); [done |].
    exists (Z.min x y). cbn [Math_min] in *. rewrite Hy. split_and!; [done | |].
    + destruct (Z.min_spec x y) as [[_ ->]|[_ ->]];
        [apply list_elem_of_here | by apply list_elem_of_further].
    + intros d [[= ->]|Hd]%elem_of_cons; [lia |]. specialize (Hle d Hd). lia.
Qed.

Lemma Math_max_numbers args :
  Forall is_Some args → args ≠ [] →
  ∃ hi, Math_max args = Value hi ∧ Some hi ∈ args ∧ ∀ d, Some d ∈ args → d ≤ hi.
Proof.
  induction 1 as [|arg args [x ->] Hall IH]; [done |]. intros _.
  destruct args as [|arg' args'].
  - exists x. simpl. split_and!; [done | apply list_elem_of_here |].
    intros d [[= ->]|Hd%elem_of_nil]%elem_of_cons; [lia | done].
  - destruct IH as (y & Hy & Hin & Hle); [done |].
    exists (Z.max x y). cbn [Math_max] in *. rewrite Hy. split_and!; [done | |].
    + destruct (Z.max_spec x y) as [[_ ->]|[_ ->]];
        [by apply list_elem_of_further | apply list_elem_of_here].
    + intros d [[= ->]|Hd]%elem_of_cons; [lia |]. specialize (Hle d Hd). lia.
Qed.

Lemma sumOf_numbers args :
  Forall is_Some args →
  ∃ total, sumOf args = Some total ∧
           ∀ lo hi, (∀ d, Some d ∈ args → lo ≤ d ≤ hi) →
                    Z.of_nat (length args) * lo ≤ total ≤ Z.of_nat (length args) * hi.
Proof.
  unfold sumOf. intros Hall.
  assert (∀ a, ∃ t, foldl plus (Some a) args = Some (a + t) ∧
            ∀ lo hi, (∀ d, Some d ∈ args → lo ≤ d ≤ hi) →
                     Z.of_nat (length args) * lo ≤ t ≤ Z.of_nat (length args) * hi)
    as H.
  { induction Hall as [|arg args [x ->] Hall IH]; intros a.
    - exists 0. simpl. split; [f_equal; lia | intros; lia].
    - destruct (IH (a + x)) as (t & Ht & Hb). exists (x + t). simpl.
      rewrite Ht. split; [f_equal; lia |].
      intros lo hi Hd.
      assert (lo ≤ x ≤ hi) by (apply Hd, list_elem_of_here).
      specialize (Hb lo hi ltac:(intros d ?; by apply Hd, list_elem_of_further)).
      cbn [length]. rewrite Nat2Z.inj_succ. lia. }
  destruct (H 0) as (t & Ht & Hb). exists t. by rewrite Ht.
Qed.

End Timing.

(** The timing block is written exactly when some result is successful.
    When the successful results all have a duration, the fastest and the
    slowest figure are durations of successful results, every such
    duration lies between them, and so does their average: the sum of
    the durations lies between their number times the fastest and their
    number times the slowest. *)
Theorem timing_statistics_bounds (this : StressTestRunner) :
  let successful := filter (λ r, success r = true) (results this) in
  Forall (λ r, is_Some (duration r)) successful →
  match timingStatistics this with
  | None => successful = []
  | Some stats =>
      ∃ lo hi total,
        fastest stats = Value lo ∧ slowest stats = Value hi ∧
        sumOf (durationsOf successful) = Some total ∧
        (∃ r, r ∈ successful ∧ duration r = Some lo) ∧
        (∃ r, r ∈ successful ∧ duration r = Some hi) ∧
        (∀ r d, r ∈ successful → duration r = Some d → lo ≤ d ≤ hi) ∧
        Z.of_nat (length successful) * lo ≤ total ≤ Z.of_nat (length successful) * hi
  end.
Proof.
  intros successful Hdur. unfold timingStatistics. fold successful.
  destruct (Nat.ltb_spec 0 (length successful)) as [Hlt|Hge].
  2: { destruct successful; [done | simpl in Hge; lia]. }
  assert (Forall is_Some (durationsOf successful)) as Hall.
  { unfold durationsOf. by apply Forall_fmap. }
  assert (durationsOf successful ≠ []) as Hne.
  { unfold durationsOf. destruct successful; [simpl in Hlt; lia | done]. }
  destruct (Math_min_numbers _ Hall Hne) as (lo & Hlo & Hlo_in & Hlo_le).
  destruct (Math_max_numbers _ Hall Hne) as (hi & Hhi & Hhi_in & Hhi_le).
  destruct (sumOf_numbers _ Hall) as (total & Htotal & Hb).
  exists lo, hi, total. simpl.
  unfold durationsOf in Hlo_in, Hhi_in, Hb.
  apply list_elem_of_fmap in Hlo_in as (rlo & Erlo & Hrlo).
  apply list_elem_of_fmap in Hhi_in as (rhi & Erhi & Hrhi).
  assert (∀ r d, r ∈ successful → duration r = Some d → lo ≤ d ≤ hi) as Hbetween.
  { intros r d Hr Hd. split; [apply Hlo_le | apply Hhi_le];
      apply list_elem_of_fmap; exists r; by rewrite Hd. }
  rewrite length_fmap in Hb. specialize (Hb lo hi).
  destruct Hb as [Hb1 Hb2].
  { intros d (r & Hd & Hr)%list_elem_of_fmap. by apply (Hbetween r). }
  split_and!; try done; [by exists rlo | by exists rhi].
Qed.

Lemma timing_statistics_bounds_witness :
  let this := (runStressTest (Scenario.runner 3) Scenario.twoOfThree).1.1 in
  let successful := filter (λ r, success r = true) (results this) in
  Forall (λ r, is_Some (duration r)) successful ∧
  match timingStatistics this with
  | None => successful = []
  | Some stats =>
      ∃ lo hi total,
        fastest stats = Value lo ∧ slowest stats = Value hi ∧
        sumOf (durationsOf successful) = Some total ∧
        (∃ r, r ∈ successful ∧ duration r = Some lo) ∧
        (∃ r, r ∈ successful ∧ duration r = Some hi) ∧
        (∀ r d, r ∈ successful → duration r = Some d → lo ≤ d ≤ hi) ∧
        Z.of_nat (length successful) * lo ≤ total ≤ Z.of_nat (length successful) * hi
  end.
Proof.
  split; [vm_compute; repeat constructor; by eexists |].
  apply (timing_statistics_bounds
           (runStressTest (Scenario.runner 3) Scenario.twoOfThree).1.1).
  vm_compute; repeat constructor; by eexists.
Defined.

(** Every result of a completed batch is the outcome of one of its
    sessions. *)
Lemma completed_batch_result (this : StressTestRunner) (env : Environment) r :
  (runStressTest this env).2 = Fulfilled tt →
  r ∈ results (runStressTest this env).1.1 →
  ∃ i, 1 ≤ i ≤ numberOfClients this ∧
       promise (runSingleClient this (session env i) i) = Fulfilled r.
Proof.
  intros H. destruct (runStressTest_fulfilled this env H) as (rs & Hrs & ->).
  simpl. intros Hr.
  assert (Fulfilled r ∈ clientPromises this env) as Hin.
  { rewrite Hrs. apply list_elem_of_fmap. by exists r. }
  unfold clientPromises in Hin.
  apply list_elem_of_fmap in Hin as (i & Hi & Hrange%elem_of_seqZ).
  exists i. split; [lia | done].
Qed.

(** After a completed batch the timing block is written iff some session
    succeeded, and its figures are never [NaN]: the fastest and the
    slowest figure are the elapsed clock time of two sessions that met no
    failure, the former not above the latter. *)
Theorem completed_batch_timing (this : StressTestRunner) (env : Environment) :
  let elapsed i := clockAtEnd (session env i) - clockAtStart (session env i) in
  let after := (runStressTest this env).1.1 in
  (runStressTest this env).2 = Fulfilled tt →
  match timingStatistics after with
  | None => ∀ r, r ∈ results after → success r = false
  | Some stats =>
      ∃ i j, (1 ≤ i ≤ numberOfClients this ∧ firstFailure this (session env i) i = None) ∧
             (1 ≤ j ≤ numberOfClients this ∧ firstFailure this (session env j) j = None) ∧
             fastest stats = Value (elapsed i) ∧
             slowest stats = Value (elapsed j) ∧
             elapsed i ≤ elapsed j
  end.
Proof.
  intros elapsed after H.
  assert (∀ r, r ∈ filter (λ r, success r = true) (results after) →
            ∃ i, (1 ≤ i ≤ numberOfClients this ∧
                  firstFailure this (session env i) i = None) ∧
                 duration r = Some (elapsed i)) as Horigin.
  { intros r [Hs Hr]%list_elem_of_filter.
    destruct (completed_batch_result this env r H Hr) as (i & Hi & Hrun).
    destruct (runSingleClient_outcome this (session env i) i r Hrun)
      as [(_ & _ & _ & Hdur) Hfail].
    exists i. split; [split; [done |] | exact Hdur].
    destruct (firstFailure this (session env i) i); [| done].
    destruct Hfail as [Hfalse _]. congruence. }
  unfold timingStatistics.
  set (successful := filter (λ r, success r = true) (results after)) in *.
  destruct (Nat.ltb_spec 0 (length successful)) as [Hlt|Hge].
  2: { intros r Hr. destruct (success r) eqn:Hs; [| done].
       assert (r ∈ successful) as Hin by by apply list_elem_of_filter.
       destruct successful; [by apply elem_of_nil in Hin | simpl in Hge; lia]. }
  assert (Forall is_Some (durationsOf successful)) as Hall.
  { unfold durationsOf. apply Forall_fmap, Forall_forall. intros r Hr.
    destruct (Horigin r Hr) as (i & _ & Hd). simpl. rewrite Hd. by eexists. }
  assert (durationsOf successful ≠ []) as Hne.
  { unfold durationsOf. destruct successful; [simpl in Hlt; lia | done]. }
  destruct (Math_min_numbers _ Hall Hne) as (lo & Hlo & Hlo_in & Hlo_le).
  destruct (Math_max_numbers _ Hall Hne) as (hi & Hhi & Hhi_in & Hhi_le).
  specialize (Hlo_le hi Hhi_in).
  apply list_elem_of_fmap in Hlo_in as (rlo & Erlo & Hrlo).
  apply list_elem_of_fmap in Hhi_in as (rhi & Erhi & Hrhi).
  destruct (Horigin rlo Hrlo) as (i & Hi & Hdi).
  destruct (Horigin rhi Hrhi) as (j & Hj & Hdj).
  assert (lo = elapsed i) as -> by congruence.
  assert (hi = elapsed j) as -> by congruence.
  exists i, j. simpl. destruct Hi as [[? ?] ?], Hj as [[? ?] ?]. by split_and!.
Qed.

Lemma completed_batch_timing_witness :
  let this := Scenario.runner 3 in
  let env := Scenario.twoOfThree in
  let elapsed i := clockAtEnd (session env i) - clockAtStart (session env i) in
  let after := (runStressTest this env).1.1 in
  (runStressTest this env).2 = Fulfilled tt ∧
  match timingStatistics after with
  | None => ∀ r, r ∈ results after → success r = false
  | Some stats =>
      ∃ i j, (1 ≤ i ≤ numberOfClients this ∧ firstFailure this (session env i) i = None) ∧
             (1 ≤ j ≤ numberOfClients this ∧ firstFailure this (session env j) j = None) ∧
             fastest stats = Value (elapsed i) ∧
             slowest stats = Value (elapsed j) ∧
             elapsed i ≤ elapsed j
  end.
Proof.
  split; [reflexivity |].
  apply (completed_batch_timing (Scenario.runner 3) Scenario.twoOfThree).
  reflexivity.
Defined.

(* ================================================================== *)
(** ** Further properties of [runSingleClient] *)
(* ================================================================== *)

(** A session whose [connect] or [processAudioFile] is still pending when
    its timer fires is recorded as failed with the message of the timer,
    which names the client; it is counted in the [Timeout] bucket and in
    the timeout note, whatever the client id. *)
Theorem hanging_session_times_out (this : StressTestRunner) (s : Session) (id : Z) :
  construct (client s) = Returns →
  connect (client s) = StillPending ∨
  (connect (client s) = Fulfilled tt ∧
   processAudioFile (client s) (audioFile this) = StillPending) →
  ∃ r, promise (runSingleClient this s id) = Fulfilled r ∧
       success r = false ∧
       error r = Some ("Client " +:+ numberToString id +:+ " timed out after 3 minutes") ∧
       errorType r = "Timeout" ∧
       timedOut r = true.
Proof.
  intros Hnew Hhang.
  assert (firstFailure this s id = Some (reason (timeoutPromise id))) as Hfail.
  { unfold firstFailure. rewrite Hnew.
    destruct Hhang as [->|[-> ->]]; done. }
  pose proof (runSingleClient_cases this s id) as H.
  rewrite Hfail in H. destruct H as (r & Hr & _ & Hs & He). exists r.
  assert (occursIn "timed out"
            ("Client " +:+ numberToString id +:+ " timed out after 3 minutes")) as Hocc.
  { exists ("Client " +:+ numberToString id +:+ " ")%string, " after 3 minutes"%string.
    by rewrite !append_assoc. }
  split_and!; try done.
  - by eapply errorType_timeout.
  - unfold timedOut. rewrite He. by apply includes_spec.
Qed.

Lemma hanging_session_times_out_witness :
  (construct (client Situation.stuck) = Returns ∧
   (connect (client Situation.stuck) = StillPending ∨
    (connect (client Situation.stuck) = Fulfilled tt ∧
     processAudioFile (client Situation.stuck) (audioFile (Scenario.runner 10))
       = StillPending))) ∧
  ∃ r, promise (runSingleClient (Scenario.runner 10) Situation.stuck 8) = Fulfilled r ∧
       success r = false ∧
       error r = Some ("Client " +:+ numberToString 8 +:+ " timed out after 3 minutes") ∧
       errorType r = "Timeout" ∧
       timedOut r = true.
Proof.
  split; [split; [reflexivity | right; split; reflexivity] |].
  apply (hanging_session_times_out (Scenario.runner 10) Situation.stuck 8);
    [reflexivity | right; split; reflexivity].
Defined.

(* ================================================================== *)
(** ** Properties of the table of detailed results *)
(* ================================================================== *)

Section Columns.

#[local] Arguments String.append _ _ : simpl nomatch.

Lemma length_append (a b : string) :
  String.length (a +:+ b) = (String.length a + String.length b)%nat.
Proof. induction a as [|c a IH]; simpl; [done | by rewrite IH]. Qed.










(** Nothing followed by [ms] reads [N/A]. *)
Lemma milliseconds_not_NA (digits : string) : digits +:+ "ms" ≠ "N/A"%string.
Proof. destruct digits as [|? [|? [|? [|? ?]]]]; simpl; discriminate. Qed.

End Columns.

(** The duration column reads [N/A] exactly when the duration is absent
    or zero.  So the outcome of a session, successful or not, that ends in
    the millisecond in which it started is shown without a duration,
    although it has one; and a session returns such an outcome unless its
    [catch] block throws. *)
Theorem duration_column_not_available
    (this : StressTestRunner) (s : Session) (id : Z) :
  (∀ result, durationText result = "N/A"%string ↔
             duration result = None ∨ duration result = Some 0) ∧
  (∀ r, promise (runSingleClient this s id) = Fulfilled r →
        is_Some (duration r) ∧
        (durationText r = "N/A"%string ↔ clockAtEnd s = clockAtStart s)) ∧
  ((∀ raised, firstFailure this s id ≠ Some (Uncoercible raised)) →
   ∃ r, promise (runSingleClient this s id) = Fulfilled r).
Proof.
  assert (∀ result, durationText result = "N/A"%string ↔
                    duration result = None ∨ duration result = Some 0) as Htext.
  { intros result. unfold durationText. destruct (duration result) as [d|].
    - destruct (Z.eqb_spec d 0) as [->|Hne].
      + split; [by right | done].
      + split; [intros H; by apply milliseconds_not_NA in H |].
        intros [H|[= H]]; done.
    - split; [by left | done]. }
  split_and!; [done | |].
  - intros r Hr.
    destruct (runSingleClient_outcome this s id r Hr) as [(_ & _ & _ & Hdur) _].
    split; [by rewrite Hdur |].
    rewrite Htext, Hdur. split.
    + intros [H|[= H]]; [done | lia].
    + intros ->. right. f_equal. lia.
  - apply runSingleClient_returns.
Qed.

(** A successful session that starts and ends in the same millisecond. *)
Example duration_column_of_instant_session :
  ∃ r, promise (runSingleClient (Scenario.runner 10) Situation.instant 4) = Fulfilled r ∧
       success r = true ∧ duration r = Some 0 ∧ durationText r = "N/A"%string.
Proof. eexists. split; [reflexivity |]. by vm_compute. Qed.


(** Code units at work: of 31 two-byte letters the first 30 are shown, and
    a character outside the basic plane that straddles the cut leaves the
    first half of its surrogate pair. *)
Example errorText_code_units :
  let letters n := String.concat "" (replicate n "é"%string) in
  let failure message :=
    {| clientId := 1; success := false; startTime := 0; endTime := Some 1;
       duration := Some 1; error := Some message |} in
  errorText (failure (letters 31%nat)) = letters 30%nat +:+ "..." ∧
  String.length (errorText (failure (letters 31%nat))) = 63%nat ∧
  errorText (failure (letters 29%nat +:+ "😀!")) =
    letters 29%nat +:+ highSurrogate "😀" +:+ "...".
Proof. by vm_compute. Qed.

Lemma spaces_length (n : nat) :
  String.length (String.concat "" (replicate n " "%string)) = n.
Proof.
  induction n as [|n IH]; [done |]. cbn [replicate String.concat].
  destruct (replicate n " "%string) eqn:E.
  - destruct n; [done | discriminate E].
  - change (String.length (" " +:+ "" +:+ String.concat "" (s :: l)))
      with (S (String.length (String.concat "" (s :: l)))).
    by rewrite IH.
Qed.

Lemma padStart_length (s : string) (n : nat) :
  String.length (padStart s n) = (n `max` String.length s)%nat.
Proof. unfold padStart. rewrite length_append, spaces_length. lia. Qed.

(** The table has one row per result, in the order of the results; the
    client column is six characters wide and the duration column eight,
    unless the text to show is longer, which is then shown unpadded: the
    columns line up as long as client ids have at most six digits and
    durations at most six. *)
Theorem table_rows (this : StressTestRunner) (k : nat) (result : StressTestResult) :
  results this !! k = Some result →
  length (detailedResults this) = length (results this) ∧
  ∃ row, detailedResults this !! k = Some row ∧
         statusColumn row = success result ∧
         errorColumn row = errorText result ∧
         (∃ pad, clientColumn row = pad +:+ numberToString (clientId result)) ∧
         (∃ pad, durationColumn row = pad +:+ durationText result) ∧
         String.length (clientColumn row) =
           (6 `max` String.length (numberToString (clientId result)))%nat ∧
         String.length (durationColumn row) =
           (8 `max` String.length (durationText result))%nat.
Proof.
  intros Hk. unfold detailedResults. split; [apply length_fmap |].
  rewrite list_lookup_fmap, Hk. simpl. eexists. split; [reflexivity |]. simpl.
  split_and!; try done; try apply padStart_length; unfold padStart; by eexists.
Qed.

Lemma table_rows_witness :
  let this := (runStressTest (Scenario.runner 3) Scenario.twoOfThree).1.1 in
  let result := {| clientId := 2; success := false; startTime := 5;
                   endTime := Some 45; duration := Some 40;
                   error := Some "Connection refused" |} in
  results this !! 1%nat = Some result ∧
  length (detailedResults this) = length (results this) ∧
  ∃ row, detailedResults this !! 1%nat = Some row ∧
         statusColumn row = success result ∧
         errorColumn row = errorText result ∧
         (∃ pad, clientColumn row = pad +:+ numberToString (clientId result)) ∧
         (∃ pad, durationColumn row = pad +:+ durationText result) ∧
         String.length (clientColumn row) =
           (6 `max` String.length (numberToString (clientId result)))%nat ∧
         String.length (durationColumn row) =
           (8 `max` String.length (durationText result))%nat.
Proof.
  split; [reflexivity |].
  apply (table_rows (runStressTest (Scenario.runner 3) Scenario.twoOfThree).1.1 1).
  reflexivity.
Defined.

(** The rows of the run with three sessions, the second one refused. *)
Example detailedResults_example :
  detailedResults (runStressTest (Scenario.runner 3) Scenario.twoOfThree).1.1 =
  [ {| clientColumn := "     1"; statusColumn := true;
       durationColumn := "  1000ms"; errorColumn := "" |};
    {| clientColumn := "     2"; statusColumn := false;
       durationColumn := "    40ms"; errorColumn := "Connection refused..." |};
    {| clientColumn := "     3"; statusColumn := true;
       durationColumn := "  1000ms"; errorColumn := "" |} ].
Proof. reflexivity. Qed.

(* ================================================================== *)
(** ** Properties of the entry point *)
(* ================================================================== *)

(** The entry point calls [process.exit] with code 1 in two cases only:
    the audio file is missing, or it is there and the race of the batch is
    rejected, be it by a session that rejects or by the global timer
    firing before every session was delivered; no other exit code is
    used.  It returns normally iff the file is there, each of the ten
    sessions returns an outcome and all are delivered before the global
    timer.  With the file missing nothing is run: the notice about the
    file is all that is written. *)
Theorem entry_point_exit (host : EntryPoint.Host) :
  let runner := new_StressTestRunner (Some 10) (EntryPoint.audioFile host) in
  let env := EntryPoint.environment host in
  let ending := (EntryPoint.runStressTest host).2 in
  (ending = EntryPoint.ProcessExit 1 ↔
   EntryPoint.existsSync host = false ∨ ∃ thrown, batchRace runner env = Rejected thrown) ∧
  (∀ thrown, batchRace runner env = Rejected thrown →
     Rejected thrown ∈ clientPromises runner env ∨
     (thrown = reason globalTimeoutPromise ∧ GlobalTimerFires ∈ schedule env ∧
      ¬ delivered runner env)) ∧
  (ending = EntryPoint.Returned ↔
   EntryPoint.existsSync host = true ∧ allReturn runner env ∧ delivered runner env) ∧
  (∀ code, ending = EntryPoint.ProcessExit code → code = 1) ∧
  (EntryPoint.existsSync host = false →
   (EntryPoint.runStressTest host).1 =
     [EntryPoint.AudioFileNotFound (EntryPoint.audioFile host)]).
Proof.
  intros runner env ending. subst ending. unfold EntryPoint.runStressTest.
  fold runner env.
  split_and!; [| apply batchRace_rejected | | |].
  - destruct (EntryPoint.existsSync host); simpl; [| split; [by left | done]].
    pose proof (runStressTest_rejected runner env) as Hrej.
    pose proof (runStressTest_fulfilled_iff runner env) as Hful.
    pose proof (batchRace_fulfilled_iff runner env) as Hrace.
    unfold runStressTest in *.
    destruct (batchRace runner env) as [rs|raised|] eqn:E; simpl in *.
    + split; [done | intros [?|[? ?]]; done].
    + split; [intros _; right; by exists raised |].
      intros _. by destruct (describe raised) as [message|raised'|] eqn:Ed;
        [| | destruct raised].
    + split; [done | intros [?|[? ?]]; done].
  - destruct (EntryPoint.existsSync host); simpl; [| split; [done | by intros [? _]]].
    pose proof (runStressTest_fulfilled_iff runner env) as Hful.
    destruct (runStressTest runner env) as [[this written] [[]|thrown|]];
      simpl in *; split; try done.
    + intros _. split; [done | by apply Hful].
    + intros [_ H]. by apply Hful in H.
    + intros [_ H]. by apply Hful in H.
  - destruct (EntryPoint.existsSync host); simpl; [| by intros code [= <-]].
    destruct (runStressTest runner env) as [[this written] [[]|thrown|]];
      simpl; try done. by intros code [= <-].
  - by intros ->.
Qed.

(** With ten clients the rate shown is the exact percentage. *)
Lemma successRate_of_ten (successful : nat) :
  (successful ≤ 10)%nat →
  toFixed (successRate successful 10) 1 =
  numberToString (10 * Z.of_nat successful) +:+ ".0".
Proof.
  intros H. do 11 (destruct successful as [|successful]; [by vm_compute |]). lia.
Qed.

(** When the entry point returns, it has written one report and the
    closing notice; the report is out of 10, its successes and failures
    add up to 10, and the success rate it shows is the exact percentage,
    ten times the number of successes with one zero decimal. *)
Theorem entry_point_report (host : EntryPoint.Host) :
  (EntryPoint.runStressTest host).2 = EntryPoint.Returned →
  ∃ report,
    (EntryPoint.runStressTest host).1 =
      [EntryPoint.FromRunner (Results report); EntryPoint.StressTestCompleted] ∧
    outOf report = 10 ∧
    (successfulCount report + failedCount report = 10)%nat ∧
    successRateShown report =
      numberToString (10 * Z.of_nat (successfulCount report)) +:+ ".0".
Proof.
  unfold EntryPoint.runStressTest.
  destruct (EntryPoint.existsSync host); simpl; [| done].
  set (runner := new_StressTestRunner (Some 10) (EntryPoint.audioFile host)).
  pose proof (runStressTest_fulfilled runner (EntryPoint.environment host)) as Hful.
  pose proof (clientPromises_length runner (EntryPoint.environment host)) as Hlen.
  destruct (runStressTest runner (EntryPoint.environment host))
    as [[this written] [[]|thrown|]]; simpl; try done.
  intros _. destruct (Hful eq_refl) as (rs & Hrs & Heq).
  injection Heq as -> ->.
  rewrite Hrs, length_fmap in Hlen.
  change (Z.to_nat (numberOfClients runner)) with 10%nat in Hlen.
  eexists. split; [reflexivity |]. simpl.
  pose proof (filter_success_length rs) as Hsum.
  split_and!; [done | lia |].
  apply successRate_of_ten. lia.
Qed.

Lemma entry_point_report_witness :
  let host := Situation.host true (PromiseSettles <$> [3; 1; 0; 2; 9; 8; 7; 6; 5; 4]%nat) in
  (EntryPoint.runStressTest host).2 = EntryPoint.Returned ∧
  ∃ report,
    (EntryPoint.runStressTest host).1 =
      [EntryPoint.FromRunner (Results report); EntryPoint.StressTestCompleted] ∧
    outOf report = 10 ∧
    (successfulCount report + failedCount report = 10)%nat ∧
    successRateShown report =
      numberToString (10 * Z.of_nat (successfulCount report)) +:+ ".0".
Proof.
  split; [by vm_compute |].
  apply (entry_point_report
           (Situation.host true (PromiseSettles <$> [3; 1; 0; 2; 9; 8; 7; 6; 5; 4]%nat))).
  by vm_compute.
Defined.

(** The entry point on ten sessions of which two are refused. *)
Example entry_point_example :
  EntryPoint.runStressTest
    (Situation.host true (PromiseSettles <$> [3; 1; 0; 2; 9; 8; 7; 6; 5; 4]%nat)) =
  ([EntryPoint.FromRunner
      (Results {| totalTime := 1000;
                  successfulCount := 8;
                  failedCount := 2;
                  outOf := 10;
                  successRateShown := "80.0";
                  errorCounts := Some [("Connection refused", 2)];
                  recommendation := Good;
                  timeoutFailures := 0 |});
    EntryPoint.StressTestCompleted],
   EntryPoint.Returned) ∧
  EntryPoint.runStressTest (Situation.host false [GlobalTimerFires]) =
  ([EntryPoint.AudioFileNotFound "/srv/whisper/german_sample_16k.wav"],
   EntryPoint.ProcessExit 1) ∧
  EntryPoint.runStressTest
    {| EntryPoint.audioFile := "/srv/whisper/german_sample_16k.wav";
       EntryPoint.existsSync := true;
       EntryPoint.environment := Situation.cutShort |} =
  ([EntryPoint.FromRunner
      (Interrupted 50 "Cannot convert object to primitive value");
    EntryPoint.StressTestFailed
      (ErrorObject "Cannot convert object to primitive value")],
   EntryPoint.ProcessExit 1).
Proof. by vm_compute. Qed.
